(** * mnistlite: the MNIST decoder of [dataset.go]

    A shallow embedding of [dataset.go] (package [mnist]) and the properties
    of its image decoder, label decoder and dataset assembler.

    Modelling conventions.
    - Go's [int] is the 64-bit two's-complement integer of the usual targets
      (amd64, arm64): a [Z] with the wrap-around of [*] written out
      ([int_mul]).  [uint32] is a [Z] below [2^32], [uint8]/[byte] is
      [Byte.byte], [float64] is the kernel's binary64 [float].
    - A slice is a [list]; [nil] results are [None].  Indexing checks its
      bounds and panics, [make] panics on a negative length, as the Go
      runtime does.  Memory is unbounded: an allocation of a non-negative
      size succeeds.
    - An [io.Reader] is the sequence of bytes it still delivers and the
      error it reports once they are consumed ([io.EOF] for a stream that
      ends, any other error for a stream that breaks, such as a corrupt
      gzip member).
    - A function that may panic returns an [outcome]. *)

From Stdlib Require Import ZArith Lia.
From Stdlib Require Import Strings.String Strings.Ascii Strings.Byte.
From Stdlib Require Import PrimFloat Uint63 FloatOps SpecFloat.
From stdpp Require Import base tactics option list strings.

Local Open Scope Z_scope.

(* ===================================================================== *)
(** ** The Go runtime: integers, slices, panics *)
(* ===================================================================== *)

Module Go.

(** Two's-complement reduction to the 64 bits of [int]. *)
Definition wrap_int (z : Z) : Z := (z + 2 ^ 63) mod 2 ^ 64 - 2 ^ 63.

Definition max_int : Z := 2 ^ 63 - 1.

(** [a * b] on [int]: overflow wraps silently. *)
Definition int_mul (a b : Z) : Z := wrap_int (a * b).

(** [int(u)] for [u : uint32]. *)
Definition int_of_uint32 (u : Z) : Z := wrap_int u.

(** [int(b)], [uint8(b)] for a byte. *)
Definition int_of_uint8 (b : byte) : Z := Z.of_N (Byte.to_N b).

Definition uint8 (z : Z) : byte :=
  default x00 (Byte.of_N (Z.to_N (z mod 256))).

(** [len(s)]. *)
Definition len {A} (s : list A) : Z := Z.of_nat (length s).

(** What a panic carries: a string given to [panic], or a runtime error. *)
Inductive panic_value : Type :=
| PanicString (msg : string)
    (* panic(msg) *)
| BoundsError (index length : Z)
    (* runtime error: index out of range [index] with length length *)
| MakesliceLen.
    (* runtime error: makeslice: len out of range *)

Inductive outcome (A : Type) : Type :=
| Returned (a : A)
| Panicked (p : panic_value).
Arguments Returned {A} a.
Arguments Panicked {A} p.

#[global] Instance outcome_ret : MRet outcome := fun A a => Returned a.
#[global] Instance outcome_bind : MBind outcome := fun A B f o =>
  match o with
  | Returned a => f a
  | Panicked p => Panicked p
  end.

(** [make([]T, n)]: [n] zero values. *)
Definition make {A} (zero : A) (n : Z) : outcome (list A) :=
  if n <? 0 then Panicked MakesliceLen
  else Returned (replicate (Z.to_nat n) zero).

(** [s[i]]. *)
Definition index {A} (s : list A) (i : Z) : outcome A :=
  if (0 <=? i) && (i <? len s) then
    match s !! Z.to_nat i with
    | Some x => Returned x
    | None => Panicked (BoundsError i (len s))
    end
  else Panicked (BoundsError i (len s)).

(** [s[i] = v]. *)
Definition index_set {A} (s : list A) (i : Z) (v : A) : outcome (list A) :=
  if (0 <=? i) && (i <? len s) then Returned (<[Z.to_nat i := v]> s)
  else Panicked (BoundsError i (len s)).

(** The [error] values that occur. [io.EOF] and [io.ErrUnexpectedEOF] are
    compared by identity in the libraries; every other error is known by
    its message. *)
Inductive error : Type :=
| EOF
| ErrUnexpectedEOF
| ErrorString (msg : string).

(** [err.Error()]. *)
Definition Error (e : error) : string :=
  match e with
  | EOF => "EOF"
  | ErrUnexpectedEOF => "unexpected EOF"
  | ErrorString msg => msg
  end.

(** [errors.New(msg)]. *)
Definition errors_New (msg : string) : error := ErrorString msg.

(** [float64(x)] for [x : uint8]: exact. *)
Definition float64_of_uint8 (x : byte) : float :=
  PrimFloat.of_uint63 (Uint63.of_Z (int_of_uint8 x)).

End Go.
Export Go.

(* ===================================================================== *)
(** ** Readers: [io], [bufio], [encoding/binary] *)
(* ===================================================================== *)

Module IO.

(** A reader: the bytes not yet read, and the error reported after them. *)
Record Reader : Type := mkReader { unread : list byte; final : error }.

(** [bytes.NewReader(b)]: delivers [b], then [io.EOF]. *)
Definition NewReader (b : list byte) : Reader := mkReader b EOF.

(** [r.Len()] of a [bytes.Reader]. *)
Definition Reader_Len (r : Reader) : Z := len (unread r).

Definition advance (n : nat) (r : Reader) : Reader :=
  mkReader (drop n (unread r)) (final r).

Definition drained (r : Reader) : Reader := mkReader [] (final r).

(** [bufio.Reader.Discard(n)]: skips [n] bytes; with fewer bytes left it
    skips them all and reports the reader's error.  Returns the number of
    bytes skipped and the error. *)
Definition Discard (n : nat) (r : Reader) : (Z * option error) * Reader :=
  if decide (n ≤ length (unread r))%nat
  then ((Z.of_nat n, None), advance n r)
  else ((len (unread r), Some (final r)), drained r).

(** [bufio.Reader.ReadByte()]. *)
Definition ReadByte (r : Reader) : (byte + error) * Reader :=
  match unread r with
  | b :: rest => (inl b, mkReader rest (final r))
  | [] => (inr (final r), r)
  end.

(** [io.ReadFull(r, buf)] with [len(buf) = n]: [io.EOF] only when nothing
    was read; a stream ending inside the buffer is [io.ErrUnexpectedEOF]. *)
Definition ReadFull (n : nat) (r : Reader) : (list byte * option error) * Reader :=
  if decide (n ≤ length (unread r))%nat
  then ((take n (unread r), None), advance n r)
  else
    let err := match unread r, final r with
               | _ :: _, EOF => ErrUnexpectedEOF
               | _, e => e
               end in
    ((unread r, Some err), drained r).

(** [binary.BigEndian.Uint32(b)]:
    [uint32(b[3]) | uint32(b[2])<<8 | uint32(b[1])<<16 | uint32(b[0])<<24]. *)
Definition BigEndian_Uint32 (b : list byte) : Z :=
  match b with
  | b0 :: b1 :: b2 :: b3 :: _ =>
      Z.lor (Z.lor (Z.lor (int_of_uint8 b3)
                          (Z.shiftl (int_of_uint8 b2) 8))
                   (Z.shiftl (int_of_uint8 b1) 16))
            (Z.shiftl (int_of_uint8 b0) 24)
  | _ => 0
  end.

(** [binary.Read(r, binary.BigEndian, &x)] for [x : uint32]: the value
    read, or the error of [io.ReadFull] on 4 bytes. *)
Definition binary_Read_uint32 (r : Reader) : (Z + error) * Reader :=
  match ReadFull 4 r with
  | ((bs, None), r') => (inl (BigEndian_Uint32 bs), r')
  | ((_, Some err), r') => (inr err, r')
  end.

(** [io.Copy(&buffer, &io.LimitedReader{R: r, N: n})] into an empty
    [bytes.Buffer]: copies until [n] bytes are through or [r] stops. The
    end of [r] is no error for [io.Copy]; any other error of [r] is.
    Returns the buffer's bytes, the number copied and the error. *)
Definition Copy_limited (n : Z) (r : Reader)
  : (list byte * Z * option error) * Reader :=
  if n <=? 0 then (([], 0, None), r)
  else if decide (Z.to_nat n ≤ length (unread r))%nat
  then ((take (Z.to_nat n) (unread r), n, None), advance (Z.to_nat n) r)
  else
    let err := match final r with
               | EOF => None
               | e => Some e
               end in
    ((unread r, len (unread r), err), drained r).

End IO.
Export IO.

(* ===================================================================== *)
(** ** Package [mnist] *)
(* ===================================================================== *)

Module Mnist.

(** A [Sample] is one instance of a handwritten digit. *)
Record Sample : Type := mkSample {
  Intensities : list float;
  Label : Z
}.

(** A [DataSet] is a collection of samples with the bitmap dimensions. *)
Record DataSet : Type := mkDataSet {
  Samples : list Sample;
  Width : Z;
  Height : Z
}.

(** The zero value of [Sample]. *)
Definition zero_Sample : Sample := mkSample [] 0.

(** *** [readIntensities] *)

(** The four results of [readIntensities]. *)
Definition intensities_result : Type :=
  option (list (list byte)) * Z * Z * option error.

(** [for i, b := range buffer.Bytes() { vec[i] = uint8(b) }], from index [i]. *)
Fixpoint copy_bytes (i : Z) (buffer vec : list byte) : outcome (list byte) :=
  match buffer with
  | [] => Returned vec
  | b :: buffer' =>
      vec' ← index_set vec i (uint8 (int_of_uint8 b));
      copy_bytes (i + 1) buffer' vec'
  end.

(** [for j := range results { ... }], over the indices [js] still to do. *)
Fixpoint read_images (js : list nat) (width height : Z) (r : Reader)
    (results : list (list byte)) : outcome intensities_result :=
  match js with
  | [] => Returned (Some results, width, height, None)
  | j :: js' =>
      let '((buffer, n, err), r') := Copy_limited (int_mul width height) r in
      match err with
      | Some e => Returned (None, 0, 0, Some e)
      | None =>
          if n <? int_mul width height
          then Returned (None, 0, 0, Some (errors_New "not enough data for image"))
          else
            vec ← make x00 (int_mul width height);
            vec' ← copy_bytes 0 buffer vec;
            results' ← index_set results (Z.of_nat j) vec';
            read_images js' width height r' results'
      end
  end.

(** [for i := 0; i < 3; i++ { binary.Read(r, binary.BigEndian, &params[i]) }],
    over the indices [ixs] still to do: the filled array, or the error. *)
Fixpoint read_params (ixs : list nat) (r : Reader) (params : list Z)
    : outcome ((list Z + error) * Reader) :=
  match ixs with
  | [] => Returned (inl params, r)
  | i :: ixs' =>
      match binary_Read_uint32 r with
      | (inr err, r') => Returned (inr err, r')
      | (inl v, r') =>
          params' ← index_set params (Z.of_nat i) v;
          read_params ixs' r' params'
      end
  end.

Definition readIntensities (reader : Reader) : outcome intensities_result :=
  match Discard 4 reader with
  | ((_, Some err), _) => Returned (None, 0, 0, Some err)
  | ((_, None), r) =>
      read ← read_params (seq 0 3) r [0; 0; 0];
      match read with
      | (inr err, _) => Returned (None, 0, 0, Some err)
      | (inl params, r) =>
          let count := int_of_uint32 (params !!! 0%nat) in
          let width := int_of_uint32 (params !!! 1%nat) in
          let height := int_of_uint32 (params !!! 2%nat) in
          results ← make ([] : list byte) count;
          read_images (seq 0 (length results)) width height r results
      end
  end.

(** *** [readLabels] *)

(** [for i := range res { label, err := r.ReadByte(); ... res[i] = int(label) }]. *)
Fixpoint read_labels (ixs : list nat) (r : Reader) (res : list Z)
    : outcome (option (list Z) * option error) :=
  match ixs with
  | [] => Returned (Some res, None)
  | i :: ixs' =>
      match ReadByte r with
      | (inr err, _) => Returned (None, Some err)
      | (inl label, r') =>
          res' ← index_set res (Z.of_nat i) (int_of_uint8 label);
          read_labels ixs' r' res'
      end
  end.

Definition readLabels (reader : Reader) (count : Z)
    : outcome (option (list Z) * option error) :=
  match Discard 8 reader with
  | ((_, Some err), _) => Returned (None, Some err)
  | ((_, None), r) =>
      res ← make 0 count;
      read_labels (seq 0 (length res)) r res
  end.

(** *** The views of a [DataSet] *)

(** [for i, sample := range d.Samples { res[i] = sample.Intensities }]. *)
Fixpoint intensity_vectors_loop (i : nat) (samples : list Sample)
    (res : list (list float)) : outcome (list (list float)) :=
  match samples with
  | [] => Returned res
  | sample :: samples' =>
      res' ← index_set res (Z.of_nat i) (Intensities sample);
      intensity_vectors_loop (S i) samples' res'
  end.

Definition IntensityVectors (d : DataSet) : outcome (list (list float)) :=
  res ← make ([] : list float) (len (Samples d));
  intensity_vectors_loop 0 (Samples d) res.

(** [for i, sample := range d.Samples {
       res[i] = make([]float64, 10); res[i][sample.Label] = 1 }].
    The second store goes through [res[i]] into the vector just made. *)
Fixpoint label_vectors_loop (i : nat) (samples : list Sample)
    (res : list (list float)) : outcome (list (list float)) :=
  match samples with
  | [] => Returned res
  | sample :: samples' =>
      vec ← make 0%float 10;
      res' ← index_set res (Z.of_nat i) vec;
      vec' ← index_set vec (Label sample) 1%float;
      res'' ← index_set res' (Z.of_nat i) vec';
      label_vectors_loop (S i) samples' res''
  end.

Definition LabelVectors (d : DataSet) : outcome (list (list float)) :=
  res ← make ([] : list float) (len (Samples d));
  label_vectors_loop 0 (Samples d) res.

(** *** [loadDataSet] *)

(** [float64(x) / 255.0]. *)
Definition normalize (x : byte) : float :=
  PrimFloat.div (float64_of_uint8 x) 255%float.

(** [for i, x := range intensities[i] { floats[i] = float64(x) / 255.0 }]. *)
Fixpoint normalize_loop (i : Z) (xs : list byte) (floats : list float)
    : outcome (list float) :=
  match xs with
  | [] => Returned floats
  | x :: xs' =>
      floats' ← index_set floats i (normalize x);
      normalize_loop (i + 1) xs' floats'
  end.

(** [for i := range dataSet.Samples { floats := ...;
       dataSet.Samples[i].Intensities = floats
       dataSet.Samples[i].Label = labels[i] }],
    over the indices [ixs] still to do. An assignment to a field of
    [Samples[i]] changes that field of element [i] and keeps the other. *)
Fixpoint samples_loop (ixs : list nat) (intensities : list (list byte))
    (labels : list Z) (samples : list Sample) : outcome (list Sample) :=
  match ixs with
  | [] => Returned samples
  | i :: ixs' =>
      image ← index intensities (Z.of_nat i);
      floats ← make 0%float (len image);
      floats' ← normalize_loop 0 image floats;
      old ← index samples (Z.of_nat i);
      samples' ← index_set samples (Z.of_nat i) (mkSample floats' (Label old));
      label ← index labels (Z.of_nat i);
      old ← index samples' (Z.of_nat i);
      samples'' ← index_set samples' (Z.of_nat i) (mkSample (Intensities old) label);
      samples_loop ixs' intensities labels samples''
  end.

(** Lines 66 to 78 of [loadDataSet]: the data set of the decoded images
    and labels. *)
Definition assemble (intensities : list (list byte)) (w h : Z)
    (labels : list Z) : outcome DataSet :=
  samples ← make zero_Sample (len intensities);
  samples' ← samples_loop (seq 0 (length samples)) intensities labels samples;
  Returned (mkDataSet samples' w h).

(** A run of the program: the lines it printed on standard output (each
    one an integer, from [fmt.Println(r.Len())]) and how it ended. *)
Definition run (A : Type) : Type := list Z * outcome A.

Definition run_bind {A B} (m : run A) (f : A → run B) : run B :=
  match m with
  | (out, Returned a) => let '(out', o) := f a in (out ++ out', o)
  | (out, Panicked p) => (out, Panicked p)
  end.

Section Assets.

(** The four embedded files ([//go:embed data/...]). *)
Variables TrainData TestData TrainLabels TestLabels : list byte.

(** [gzip.NewReader] on a [bytes.Reader] of the given bytes: an error for
    a bad header, or the reader of the decompressed stream (which ends in
    an error of its own when the member is corrupt further on). *)
Variable gzip_NewReader : list byte → Reader + error.

Definition assetReader (name : string) : run Reader :=
  let found (data : list byte) : run Reader :=
    ([Reader_Len (NewReader data)],
     match gzip_NewReader data with
     | inr err =>
         Panicked (PanicString
           ("could not decompress " +:+ name +:+ ": " +:+ Error err))
     | inl reader => Returned reader
     end) in
  if String.eqb name "t10k-images-idx3-ubyte.gz" then found TestData
  else if String.eqb name "train-images-idx3-ubyte.gz" then found TrainData
  else if String.eqb name "t10k-labels-idx1-ubyte.gz" then found TestLabels
  else if String.eqb name "train-labels-idx1-ubyte.gz" then found TrainLabels
  else ([], Panicked (PanicString ("file not found: " +:+ name))).

Definition loadDataSet (prefix : string) : run DataSet :=
  let labelFilename := prefix +:+ "-labels-idx1-ubyte.gz" in
  let imageFilename := prefix +:+ "-images-idx3-ubyte.gz" in
  run_bind (assetReader imageFilename) (fun images_reader =>
  match readIntensities images_reader with
  | Panicked p => ([], Panicked p)
  | Returned (_, _, _, Some err) =>
      ([], Panicked (PanicString ("failed to read images: " +:+ Error err)))
  | Returned (intensities, w, h, None) =>
      let intensities := default [] intensities in
      run_bind (assetReader labelFilename) (fun labels_reader =>
      match readLabels labels_reader (len intensities) with
      | Panicked p => ([], Panicked p)
      | Returned (_, Some err) =>
          ([], Panicked (PanicString ("failed to read labels: " +:+ Error err)))
      | Returned (labels, None) =>
          ([], assemble intensities w h (default [] labels))
      end)
  end).

Definition LoadTrainingDataSet : run DataSet := loadDataSet "train".

Definition LoadTestingDataSet : run DataSet := loadDataSet "t10k".

End Assets.

End Mnist.
Export Mnist.

(* ===================================================================== *)
(** ** Vocabulary of the statements *)
(* ===================================================================== *)

(** The first [k] consecutive blocks of [n] bytes of [l]. *)
Fixpoint blocks (k n : nat) (l : list byte) : list (list byte) :=
  match k with
  | O => []
  | S k' => take n l :: blocks k' n (drop n l)
  end.

(** The header fields of an image stream: the big-endian words at offsets
    4, 8 and 12. *)
Definition header_count (s : list byte) : Z := BigEndian_Uint32 (take 4 (drop 4 s)).
Definition header_width (s : list byte) : Z := BigEndian_Uint32 (take 4 (drop 8 s)).
Definition header_height (s : list byte) : Z := BigEndian_Uint32 (take 4 (drop 12 s)).

(** The error of [readIntensities] when a reader stops inside an image. *)
Definition truncated_image_error (r : Reader) : error :=
  match final r with
  | EOF => errors_New "not enough data for image"
  | e => e
  end.

(** The number of bytes of an image stream [s] left for image [j], when
    the images before it took [size] bytes each. *)
Definition available_for (s : list byte) (size : Z) (j : Z) : Z :=
  len s - 16 - j * size.

(** [readIntensities] fails: it returns an error and nothing else. *)
Definition decode_fails (o : outcome intensities_result) : Prop :=
  ∃ err, o = Returned (None, 0, 0, Some err).

(** [f] is a binary64 number within half a unit in the last place of the
    rational [num / den] (for [0 <= num] and [0 < den]): a nearest double. *)
Definition nearest_double (f : float) (num den : Z) : bool :=
  match Prim2SF f with
  | S754_zero false => num =? 0
  | S754_finite false m e =>
      (Pos.size_nat m =? 53)%nat && (e <? 0) &&
      (2 * Z.abs (Z.pos m * den - num * 2 ^ (- e)) <=? den)
  | _ => false
  end.

(** The sample of an image and its label. *)
Definition sample_of (image : list byte) (label : Z) : Sample :=
  mkSample (map normalize image) label.

(** How opening an embedded file ends: the reader of the decompressed
    stream, or the panic that names the file and the gzip error. *)
Inductive asset_opened (gz : list byte → Reader + error) (name : string)
    (data : list byte) : outcome Reader → Prop :=
| asset_decompressed reader :
    gz data = inl reader →
    asset_opened gz name data (Returned reader)
| asset_corrupt err :
    gz data = inr err →
    asset_opened gz name data
      (Panicked (PanicString
         ("could not decompress " +:+ name +:+ ": " +:+ Error err))).

(** How loading the files of [prefix] ends, given how each file opens:
    one case per way to fail, each a panic, and the complete data set. *)
Inductive load_result (open : string → outcome Reader) (prefix : string)
    : outcome DataSet → Prop :=
| load_images_unopened p :
    open (prefix +:+ "-images-idx3-ubyte.gz") = Panicked p →
    load_result open prefix (Panicked p)
| load_images_failed reader err :
    open (prefix +:+ "-images-idx3-ubyte.gz") = Returned reader →
    readIntensities reader = Returned (None, 0, 0, Some err) →
    load_result open prefix
      (Panicked (PanicString ("failed to read images: " +:+ Error err)))
| load_images_panicked reader p :
    open (prefix +:+ "-images-idx3-ubyte.gz") = Returned reader →
    readIntensities reader = Panicked p →
    load_result open prefix (Panicked p)
| load_labels_unopened reader intensities w h p :
    open (prefix +:+ "-images-idx3-ubyte.gz") = Returned reader →
    readIntensities reader = Returned (Some intensities, w, h, None) →
    open (prefix +:+ "-labels-idx1-ubyte.gz") = Panicked p →
    load_result open prefix (Panicked p)
| load_labels_failed reader intensities w h reader' err :
    open (prefix +:+ "-images-idx3-ubyte.gz") = Returned reader →
    readIntensities reader = Returned (Some intensities, w, h, None) →
    open (prefix +:+ "-labels-idx1-ubyte.gz") = Returned reader' →
    readLabels reader' (len intensities) = Returned (None, Some err) →
    load_result open prefix
      (Panicked (PanicString ("failed to read labels: " +:+ Error err)))
| load_complete reader intensities w h reader' labels :
    open (prefix +:+ "-images-idx3-ubyte.gz") = Returned reader →
    readIntensities reader = Returned (Some intensities, w, h, None) →
    open (prefix +:+ "-labels-idx1-ubyte.gz") = Returned reader' →
    readLabels reader' (len intensities) = Returned (Some labels, None) →
    length labels = length intensities →
    load_result open prefix
      (Returned (mkDataSet (zip_with sample_of intensities labels) w h)).

(** The label of a sample names a digit. *)
Definition label_in_range (sample : Sample) : Prop := 0 ≤ Label sample ≤ 9.

(** The vector [LabelVectors] builds for a label. *)
Definition unit_vector (label : Z) : list float :=
  <[Z.to_nat label := 1%float]> (replicate 10 0%float).

(** [v] is the one-hot vector of [label]: length 10, [1.0] at [label] and
    [0.0] everywhere else. *)
Definition one_hot (label : Z) (v : list float) : Prop :=
  length v = 10%nat ∧
  ∀ k : nat, (k < 10)%nat →
    v !! k = Some (if decide (Z.of_nat k = label) then 1%float else 0%float).

(** The number of entries of [v] equal to [1.0]. *)
Definition count_ones (v : list float) : nat :=
  length (filter (fun x => PrimFloat.eqb x 1%float = true) v).

(** Streams written as lists of numbers. *)
Definition bytes_of (l : list Z) : list byte := map uint8 l.

(** Two images of 2 by 2 pixels, and their labels 3 and 7. *)
Definition two_images : list byte :=
  bytes_of [0;0;8;3; 0;0;0;2; 0;0;0;2; 0;0;0;2; 0;255;128;64; 255;0;0;255].
Definition two_labels : list byte :=
  bytes_of [0;0;8;1; 0;0;0;2; 3;7].

(** The same two images behind another 4-byte prefix, and the same labels
    behind another 8-byte prefix. *)
Definition two_images' : list byte :=
  bytes_of [9;9;9;9; 0;0;0;2; 0;0;0;2; 0;0;0;2; 0;255;128;64; 255;0;0;255].
Definition two_labels' : list byte :=
  bytes_of [1;2;3;4; 5;6;7;8; 3;7].

(** The two images, the second one a byte short. *)
Definition cut_images : list byte :=
  bytes_of [0;0;8;3; 0;0;0;2; 0;0;0;2; 0;0;0;2; 0;255;128;64; 255;0;0].

(** A header that announces two images of width 0 and height 5, and one
    more byte. *)
Definition zero_width_images : list byte :=
  bytes_of [0;0;8;3; 0;0;0;2; 0;0;0;0; 0;0;0;5; 9].

(** A header that announces one image of [2^32 - 1] by [2^32 - 1] pixels,
    and nothing else. *)
Definition huge_images : list byte :=
  bytes_of [0;0;8;3; 0;0;0;1; 255;255;255;255; 255;255;255;255].

(** The statement that a zero dimension in the header of [s] makes the
    decoder fail. *)
Definition zero_dimension_rejected (s : list byte) : Prop :=
  (16 ≤ length s)%nat →
  header_width s = 0 ∨ header_height s = 0 →
  decode_fails (readIntensities (NewReader s)).

(** The statement that an image of [s] with fewer than [width * height]
    bytes left makes the decoder return the error for truncated image
    data. *)
Definition truncated_image_rejected (s : list byte) : Prop :=
  (16 ≤ length s)%nat →
  (∃ j, 0 ≤ j < header_count s ∧
        available_for s (header_width s * header_height s) j
        < header_width s * header_height s) →
  readIntensities (NewReader s)
  = Returned (None, 0, 0, Some (errors_New "not enough data for image")).

(** A stand-in for [gzip.NewReader] on stored (uncompressed) data. *)
Definition stored_NewReader (data : list byte) : Reader + error :=
  inl (NewReader data).

(** [binary.BigEndian.PutUint32(b, v)]: the four bytes of [v], the most
    significant first ([b[0] = byte(v >> 24)], ..., [b[3] = byte(v)]). The
    decoder never calls it; it writes the headers of the streams below. *)
Definition BigEndian_PutUint32 (v : Z) : list byte :=
  [uint8 (Z.shiftr v 24); uint8 (Z.shiftr v 16); uint8 (Z.shiftr v 8); uint8 v].

(** An image stream written from its parts: the prefix, the number of
    images, the dimensions, the images one after the other, and whatever
    follows them. *)
Definition image_stream (prefix : list byte) (width height : Z)
    (images : list (list byte)) (rest : list byte) : list byte :=
  prefix ++ BigEndian_PutUint32 (len images) ++ BigEndian_PutUint32 width ++
  BigEndian_PutUint32 height ++ concat images ++ rest.

(** All the values of a byte, in increasing order. *)
Definition all_bytes : list byte :=
  map (fun n => uint8 (Z.of_nat n)) (seq 0 256).

(** The normalized intensities of two bytes are in the order of the
    bytes. *)
Definition normalize_increasing (x y : byte) : bool :=
  implb (int_of_uint8 x <? int_of_uint8 y)
        (PrimFloat.ltb (normalize x) (normalize y)).

(** The embedded image file [data] opens and its images are decoded. *)
Definition images_decoded (gz : list byte → Reader + error) (data : list byte)
    : Prop :=
  ∃ reader results w h,
    gz data = inl reader ∧
    readIntensities reader = Returned (Some results, w, h, None).

(** A reader that breaks with a gzip error after the given bytes. *)
Definition broken_reader (delivered : list byte) : Reader :=
  mkReader delivered (ErrorString "gzip: invalid checksum").

(* ===================================================================== *)
(** ** Facts about the runtime model *)
(* ===================================================================== *)

Section Runtime.

Lemma wrap_int_small z : - 2 ^ 63 ≤ z < 2 ^ 63 → wrap_int z = z.
Proof.
  intros Hz. unfold wrap_int.
  rewrite Z.mod_small by lia. lia.
Qed.

Lemma wrap_int_high z : 2 ^ 63 ≤ z < 2 ^ 64 → wrap_int z = z - 2 ^ 64.
Proof.
  intros Hz. unfold wrap_int.
  replace (z + 2 ^ 63) with ((z - 2 ^ 63) + 1 * 2 ^ 64) by lia.
  rewrite Z.mod_add by lia.
  rewrite Z.mod_small by lia. lia.
Qed.

Lemma int_of_uint8_range b : 0 ≤ int_of_uint8 b < 256.
Proof. destruct b; vm_compute; split; congruence. Qed.

Lemma uint8_int_of_uint8 b : uint8 (int_of_uint8 b) = b.
Proof. destruct b; reflexivity. Qed.

Lemma lor_below a b n :
  0 ≤ n → 0 ≤ a < 2 ^ n → 0 ≤ b < 2 ^ n → 0 ≤ Z.lor a b < 2 ^ n.
Proof.
  intros Hn Ha Hb. split; [apply Z.lor_nonneg; lia|].
  destruct (Z.eq_dec (Z.lor a b) 0) as [->|Hne]; [lia|].
  assert (0 < Z.lor a b) by (pose proof (proj2 (Z.lor_nonneg a b)); lia).
  apply Z.log2_lt_pow2; [lia|].
  rewrite Z.log2_lor by lia.
  destruct (Z.eq_dec a 0) as [->|]; destruct (Z.eq_dec b 0) as [->|];
    rewrite ?Z.lor_0_l, ?Z.lor_0_r in *; try lia.
  - simpl. rewrite Z.max_r by apply Z.log2_nonneg. apply Z.log2_lt_pow2; lia.
  - simpl. rewrite Z.max_l by apply Z.log2_nonneg. apply Z.log2_lt_pow2; lia.
  - apply Z.max_lub_lt; apply Z.log2_lt_pow2; lia.
Qed.

Lemma BigEndian_Uint32_range bs : 0 ≤ BigEndian_Uint32 bs < 2 ^ 32.
Proof.
  destruct bs as [|b0 [|b1 [|b2 [|b3 bs]]]]; simpl; try lia.
  pose proof (int_of_uint8_range b0). pose proof (int_of_uint8_range b1).
  pose proof (int_of_uint8_range b2). pose proof (int_of_uint8_range b3).
  rewrite !Z.shiftl_mul_pow2 by lia.
  repeat apply lor_below; lia.
Qed.

Lemma int_of_uint32_id u : 0 ≤ u < 2 ^ 32 → int_of_uint32 u = u.
Proof. intros Hu. apply wrap_int_small. lia. Qed.

(** The product of two [uint32] values on [int]: exact below [2^63],
    negative from there on. *)
Lemma int_mul_exact w h :
  0 ≤ w < 2 ^ 32 → 0 ≤ h < 2 ^ 32 → w * h ≤ max_int → int_mul w h = w * h.
Proof.
  unfold max_int. intros Hw Hh Hfit. apply wrap_int_small. nia.
Qed.

Lemma int_mul_overflow w h :
  0 ≤ w < 2 ^ 32 → 0 ≤ h < 2 ^ 32 → max_int < w * h → int_mul w h < 0.
Proof.
  unfold max_int. intros Hw Hh Hover. unfold int_mul.
  rewrite wrap_int_high; nia.
Qed.

Lemma int_mul_nonneg_exact w h :
  0 ≤ w < 2 ^ 32 → 0 ≤ h < 2 ^ 32 → 0 ≤ int_mul w h →
  int_mul w h = w * h ∧ w * h ≤ max_int.
Proof.
  intros Hw Hh Hpos.
  destruct (Z_le_gt_dec (w * h) max_int) as [Hfit|Hover].
  - split; [by apply int_mul_exact|done].
  - pose proof (int_mul_overflow w h Hw Hh). lia.
Qed.

Lemma make_nonneg {A} (zero : A) n :
  0 ≤ n → make zero n = Returned (replicate (Z.to_nat n) zero).
Proof. intros Hn. unfold make. by rewrite (proj2 (Z.ltb_ge n 0)). Qed.

Lemma make_negative {A} (zero : A) n : n < 0 → make zero n = Panicked MakesliceLen.
Proof. intros Hn. unfold make. by rewrite (proj2 (Z.ltb_lt n 0)). Qed.

Lemma make_len {A B} (zero : A) (s : list B) :
  make zero (len s) = Returned (replicate (length s) zero).
Proof. unfold len. rewrite make_nonneg by lia. by rewrite Nat2Z.id. Qed.

Lemma index_set_in {A} (s : list A) (i : nat) v :
  (i < length s)%nat → index_set s (Z.of_nat i) v = Returned (<[i := v]> s).
Proof.
  intros Hi. unfold index_set, len.
  rewrite (proj2 (Z.leb_le 0 _)), (proj2 (Z.ltb_lt _ _)) by lia.
  simpl. by rewrite Nat2Z.id.
Qed.

Lemma index_set_out {A} (s : list A) i v :
  i < 0 ∨ len s ≤ i → index_set s i v = Panicked (BoundsError i (len s)).
Proof.
  intros Hi. unfold index_set.
  destruct (Z.leb_spec 0 i); destruct (Z.ltb_spec i (len s)); simpl; try done; lia.
Qed.

Lemma index_in {A} (s : list A) (i : nat) x :
  s !! i = Some x → index s (Z.of_nat i) = Returned x.
Proof.
  intros Hx. pose proof (lookup_lt_Some _ _ _ Hx). unfold index, len.
  rewrite (proj2 (Z.leb_le 0 _)), (proj2 (Z.ltb_lt _ _)) by lia.
  simpl. by rewrite Nat2Z.id, Hx.
Qed.

Lemma index_out {A} (s : list A) i :
  i < 0 ∨ len s ≤ i → index s i = Panicked (BoundsError i (len s)).
Proof.
  intros Hi. unfold index.
  destruct (Z.leb_spec 0 i); destruct (Z.ltb_spec i (len s)); simpl; try done; lia.
Qed.

End Runtime.

(* ===================================================================== *)
(** ** The loops of the decoders *)
(* ===================================================================== *)

Section Loops.

(** Storing at the next index of a long enough slice. *)
Lemma store_next {A} (dst : list A) (i : nat) (x : A) (n : nat) :
  (i + S n ≤ length dst)%nat →
  take (S i) (<[i := x]> dst) = take i dst ++ [x] ∧
  drop (S i + n) (<[i := x]> dst) = drop (i + S n) dst ∧
  (S i + n ≤ length (<[i := x]> dst))%nat.
Proof.
  intros Hlen. split_and!.
  - rewrite (take_S_r _ _ x) by (apply list_lookup_insert_eq; lia).
    rewrite take_insert_ge by lia. done.
  - rewrite drop_insert_lt by lia. f_equal. lia.
  - rewrite length_insert. lia.
Qed.

Lemma copy_bytes_from buffer : ∀ (i : nat) vec,
  (i + length buffer ≤ length vec)%nat →
  copy_bytes (Z.of_nat i) buffer vec
  = Returned (take i vec ++ buffer ++ drop (i + length buffer) vec).
Proof.
  induction buffer as [|b buffer IH]; intros i vec Hlen; simpl in *.
  - by rewrite Nat.add_0_r, take_drop.
  - rewrite uint8_int_of_uint8, index_set_in by lia. simpl.
    destruct (store_next vec i b (length buffer) Hlen) as (Ht & Hd & Hl).
    replace (Z.of_nat i + 1) with (Z.of_nat (S i)) by lia.
    rewrite IH by done. rewrite Ht, Hd, <- app_assoc. done.
Qed.

(** A zeroed vector of the buffer's length becomes the buffer. *)
Lemma copy_bytes_full buffer zero :
  copy_bytes 0 buffer (replicate (length buffer) zero) = Returned buffer.
Proof.
  change 0 with (Z.of_nat 0).
  rewrite copy_bytes_from by (rewrite length_replicate; lia).
  simpl. rewrite drop_ge by (rewrite length_replicate; lia).
  by rewrite app_nil_r.
Qed.

Lemma normalize_loop_from xs : ∀ (i : nat) floats,
  (i + length xs ≤ length floats)%nat →
  normalize_loop (Z.of_nat i) xs floats
  = Returned (take i floats ++ map normalize xs ++ drop (i + length xs) floats).
Proof.
  induction xs as [|x xs IH]; intros i floats Hlen; simpl in *.
  - by rewrite Nat.add_0_r, take_drop.
  - rewrite index_set_in by lia. simpl.
    destruct (store_next floats i (normalize x) (length xs) Hlen) as (Ht & Hd & Hl).
    replace (Z.of_nat i + 1) with (Z.of_nat (S i)) by lia.
    rewrite IH by done. rewrite Ht, Hd, <- app_assoc. done.
Qed.

Lemma normalize_loop_full xs zero :
  normalize_loop 0 xs (replicate (length xs) zero) = Returned (map normalize xs).
Proof.
  change 0 with (Z.of_nat 0).
  rewrite normalize_loop_from by (rewrite length_replicate; lia).
  simpl. rewrite drop_ge by (rewrite length_replicate; lia).
  by rewrite app_nil_r.
Qed.

(** The blocks of a stream. *)
Lemma length_blocks k n l : length (blocks k n l) = k.
Proof. revert l. induction k; intros l; simpl; [done|by rewrite IHk]. Qed.

Lemma blocks_lookup k n l : ∀ j, (j < k)%nat →
  blocks k n l !! j = Some (take n (drop (j * n) l)).
Proof.
  revert l. induction k as [|k IH]; intros l j Hj; [lia|].
  destruct j as [|j]; simpl; [done|].
  rewrite IH by lia. by rewrite drop_drop.
Qed.

Lemma blocks_block_length k n l v :
  (k * n ≤ length l)%nat → v ∈ blocks k n l → length v = n.
Proof.
  revert l. induction k as [|k IH]; intros l Hlen Hv; simpl in *.
  - by apply elem_of_nil in Hv.
  - apply elem_of_cons in Hv as [->|Hv].
    + rewrite length_take. lia.
    + apply (IH (drop n l)); [rewrite length_drop; lia|done].
Qed.

Lemma blocks_zero k l : blocks k 0 l = replicate k [].
Proof. induction k; simpl; [done|]. by rewrite take_0, drop_0, IHk. Qed.

Lemma blocks_concat k n l :
  (k * n ≤ length l)%nat → concat (blocks k n l) = take (k * n) l.
Proof.
  revert l. induction k as [|k IH]; intros l Hlen; simpl in *; [done|].
  rewrite IH by (rewrite length_drop; lia).
  rewrite take_take_drop. done.
Qed.

End Loops.

(* ===================================================================== *)
(** ** [readIntensities] *)
(* ===================================================================== *)

Section ReadIntensities.

Variables width height : Z.

Local Abbreviation size := (int_mul width height).

(** With a product that wrapped below zero, the first image panics in
    [make]: the limited reader is empty, [0 < size] is false. *)
Lemma read_images_negative j js r results :
  size < 0 →
  read_images (j :: js) width height r results = Panicked MakesliceLen.
Proof.
  intros Hneg. simpl. unfold Copy_limited.
  rewrite (proj2 (Z.leb_le _ 0)) by lia.
  rewrite (proj2 (Z.ltb_ge 0 _)) by lia.
  by rewrite make_negative.
Qed.

(** With a product that did not wrap, the loop stores one block per index
    while the reader has them, and fails otherwise. *)
Lemma read_images_blocks k : ∀ j r results,
  0 ≤ size →
  length results = (j + k)%nat →
  read_images (seq j k) width height r results =
    if decide (k * Z.to_nat size ≤ length (unread r))%nat
    then Returned (Some (take j results ++ blocks k (Z.to_nat size) (unread r)),
                   width, height, None)
    else Returned (None, 0, 0, Some (truncated_image_error r)).
Proof.
  induction k as [|k IH]; intros j r results Hsize Hlen.
  - simpl. rewrite take_ge by lia. by rewrite app_nil_r.
  - cbn [seq read_images].
    destruct (store_next results j) with (n := k) (x := take (Z.to_nat (int_mul width height)) (unread r))
      as (Ht & _ & _); [lia|].
    unfold Copy_limited.
    destruct (Z.leb_spec (int_mul width height) 0) as [Hz|Hpos].
    + (* a zero-sized image *)
      assert (int_mul width height = 0) as Hz0 by lia.
      rewrite Hz0 in *. simpl.
      rewrite index_set_in by lia. cbn [mbind outcome_bind].
      rewrite IH by (rewrite ?length_insert; lia).
      simpl in Ht. rewrite take_0 in Ht. rewrite Ht.
      rewrite !Nat.mul_0_r. rewrite !decide_True by lia.
      by rewrite <- app_assoc.
    + destruct (decide (Z.to_nat (int_mul width height) ≤ length (unread r))%nat)
        as [Hok|Hshort].
      * rewrite Z.ltb_irrefl.
        rewrite make_nonneg by lia. cbn [mbind outcome_bind].
        set (n := Z.to_nat (int_mul width height)) in *.
        assert (length (take n (unread r)) = n) as Hn
          by (rewrite length_take; lia).
        replace (replicate n x00) with (replicate (length (take n (unread r))) x00)
          by (by rewrite Hn).
        rewrite copy_bytes_full. cbn [mbind outcome_bind].
        rewrite index_set_in by lia. cbn [mbind outcome_bind].
        rewrite IH by (rewrite ?length_insert; lia).
        rewrite Ht. cbn [unread advance blocks].
        rewrite length_drop.
        destruct (decide (k * n ≤ length (unread r) - n)%nat);
          destruct (decide (S k * n ≤ length (unread r))%nat);
          cbn [Nat.mul] in *; try lia.
        -- by rewrite <- app_assoc.
        -- unfold truncated_image_error. done.
      * assert (Z.to_nat size ≤ S k * Z.to_nat size)%nat as Hle
          by (cbn [Nat.mul]; apply Nat.le_add_r).
        rewrite decide_False by (intros Hc; apply Hshort; by etrans).
        unfold truncated_image_error.
        destruct (final r) eqn:Hfin; try done.
        unfold len. rewrite (proj2 (Z.ltb_lt _ _)) by lia. done.
Qed.

End ReadIntensities.

Section ReadHeader.

Lemma length_unread_advance n r :
  length (unread (advance n r)) = (length (unread r) - n)%nat.
Proof. apply length_drop. Qed.

Lemma advance_advance n m r : advance n (advance m r) = advance (m + n) r.
Proof. unfold advance. simpl. by rewrite drop_drop. Qed.

Lemma Discard_enough n r :
  (n ≤ length (unread r))%nat → Discard n r = ((Z.of_nat n, None), advance n r).
Proof. intros Hn. unfold Discard. by rewrite decide_True. Qed.

Lemma Discard_short n r :
  (length (unread r) < n)%nat →
  Discard n r = ((len (unread r), Some (final r)), drained r).
Proof. intros Hn. unfold Discard. by rewrite decide_False by lia. Qed.

Lemma binary_Read_uint32_enough r :
  (4 ≤ length (unread r))%nat →
  binary_Read_uint32 r = (inl (BigEndian_Uint32 (take 4 (unread r))), advance 4 r).
Proof.
  intros Hn. unfold binary_Read_uint32, ReadFull. by rewrite decide_True.
Qed.

(** Fewer than 16 bytes: the header cannot be read. The error is the
    reader's own, or [io.ErrUnexpectedEOF] when the stream ends inside a
    field. *)
Lemma readIntensities_short_header r :
  (length (unread r) < 16)%nat →
  ∃ err, readIntensities r = Returned (None, 0, 0, Some err) ∧
         (err = final r ∨ (final r = EOF ∧ err = ErrUnexpectedEOF)).
Proof.
  intros Hlen. destruct r as [l fin]. simpl in Hlen.
  unfold readIntensities, Discard. simpl.
  do 16 (destruct l as [|? l]; [destruct fin; simpl; eauto|]).
  simpl in Hlen. lia.
Qed.

(** With 16 bytes or more the header is read and the loop runs on the
    rest of the stream. *)
Lemma read_params_enough r :
  (12 ≤ length (unread r))%nat →
  read_params (seq 0 3) r [0; 0; 0] =
    Returned (inl [BigEndian_Uint32 (take 4 (unread r));
                   BigEndian_Uint32 (take 4 (drop 4 (unread r)));
                   BigEndian_Uint32 (take 4 (drop 8 (unread r)))],
              advance 12 r).
Proof.
  intros Hlen. cbn [seq read_params].
  do 3 (rewrite binary_Read_uint32_enough
          by (rewrite ?length_unread_advance; lia);
        rewrite index_set_in by (simpl; lia);
        cbn [mbind outcome_bind]).
  rewrite ?advance_advance. reflexivity.
Qed.

Lemma readIntensities_header r :
  (16 ≤ length (unread r))%nat →
  readIntensities r =
    results ← make ([] : list byte) (header_count (unread r));
    read_images (seq 0 (length results))
      (header_width (unread r)) (header_height (unread r)) (advance 16 r) results.
Proof.
  intros Hlen. unfold readIntensities.
  rewrite Discard_enough by lia.
  rewrite read_params_enough by (rewrite length_unread_advance; lia).
  cbn [mbind outcome_bind]. rewrite advance_advance.
  cbn [unread advance]. rewrite !drop_drop.
  cbn -[BigEndian_Uint32 int_of_uint32 make].
  rewrite !int_of_uint32_id by apply BigEndian_Uint32_range.
  done.
Qed.

End ReadHeader.

Section ReadIntensitiesCases.

Variable r : Reader.
Hypothesis Hheader : (16 ≤ length (unread r))%nat.

Local Abbreviation count := (header_count (unread r)).
Local Abbreviation width := (header_width (unread r)).
Local Abbreviation height := (header_height (unread r)).

Lemma header_fields_range :
  0 ≤ count < 2 ^ 32 ∧ 0 ≤ width < 2 ^ 32 ∧ 0 ≤ height < 2 ^ 32.
Proof. split_and!; apply BigEndian_Uint32_range. Qed.

(** No image announced: nothing is read, whatever the dimensions. *)
Lemma readIntensities_no_image :
  count = 0 → readIntensities r = Returned (Some [], width, height, None).
Proof.
  intros Hc. rewrite readIntensities_header by done. by rewrite Hc.
Qed.

(** A product of the dimensions beyond [int]: the first image panics. *)
Lemma readIntensities_overflow :
  0 < count → int_mul width height < 0 →
  readIntensities r = Panicked MakesliceLen.
Proof.
  intros Hc Hneg. rewrite readIntensities_header by done.
  rewrite make_nonneg by lia. cbn [mbind outcome_bind].
  rewrite length_replicate.
  destruct (Z.to_nat count) as [|k] eqn:Hk; [lia|].
  cbn [seq]. by apply read_images_negative.
Qed.

(** Enough bytes for every image: the blocks of the stream, in order. *)
Lemma readIntensities_complete :
  0 ≤ int_mul width height →
  count * int_mul width height ≤ len (unread r) - 16 →
  readIntensities r =
    Returned (Some (blocks (Z.to_nat count) (Z.to_nat (int_mul width height))
                      (drop 16 (unread r))),
              width, height, None).
Proof.
  intros Hsize Hfit. pose proof header_fields_range as (Hc & _ & _).
  rewrite readIntensities_header by done.
  rewrite make_nonneg by lia. cbn [mbind outcome_bind].
  rewrite length_replicate.
  rewrite read_images_blocks by (rewrite ?length_replicate; lia).
  cbn [unread advance]. rewrite length_drop.
  rewrite decide_True; [done|].
  rewrite <- Z2Nat.inj_mul by lia. unfold len in Hfit. lia.
Qed.

(** Some image cut short: the error, and no image at all. *)
Lemma readIntensities_truncated :
  0 ≤ int_mul width height →
  len (unread r) - 16 < count * int_mul width height →
  readIntensities r = Returned (None, 0, 0, Some (truncated_image_error r)).
Proof.
  intros Hsize Hfit. pose proof header_fields_range as (Hc & _ & _).
  rewrite readIntensities_header by done.
  rewrite make_nonneg by lia. cbn [mbind outcome_bind].
  rewrite length_replicate.
  rewrite read_images_blocks by (rewrite ?length_replicate; lia).
  cbn [unread advance]. rewrite length_drop.
  rewrite decide_False; [done|].
  rewrite <- Z2Nat.inj_mul by lia. unfold len in Hfit. lia.
Qed.

End ReadIntensitiesCases.

(* ===================================================================== *)
(** ** [readLabels] *)
(* ===================================================================== *)

Section ReadLabels.

Lemma read_labels_bytes k : ∀ j r res,
  length res = (j + k)%nat →
  read_labels (seq j k) r res =
    if decide (k ≤ length (unread r))%nat
    then Returned (Some (take j res ++ map int_of_uint8 (take k (unread r))), None)
    else Returned (None, Some (final r)).
Proof.
  induction k as [|k IH]; intros j r res Hlen.
  - simpl. rewrite take_ge by lia. by rewrite app_nil_r.
  - cbn [seq read_labels]. unfold ReadByte.
    destruct r as [[|b rest] fin]; cbn [unread final].
    + by rewrite decide_False by (simpl; lia).
    + rewrite index_set_in by lia. cbn [mbind outcome_bind].
      rewrite IH by (rewrite length_insert; lia). cbn [unread final length].
      destruct (store_next res j (int_of_uint8 b) k) as (Ht & _ & _); [lia|].
      rewrite Ht, <- app_assoc. simpl.
      destruct (decide (k ≤ length rest)%nat);
        [rewrite decide_True by lia|rewrite decide_False by lia]; done.
Qed.

Lemma readLabels_short_header r count :
  (length (unread r) < 8)%nat →
  readLabels r count = Returned (None, Some (final r)).
Proof. intros Hlen. unfold readLabels. by rewrite Discard_short. Qed.

Lemma readLabels_negative r count :
  (8 ≤ length (unread r))%nat → count < 0 →
  readLabels r count = Panicked MakesliceLen.
Proof.
  intros Hlen Hc. unfold readLabels.
  rewrite Discard_enough by done. by rewrite make_negative.
Qed.

Lemma readLabels_complete r count :
  0 ≤ count → 8 + count ≤ len (unread r) →
  readLabels r count =
    Returned (Some (map int_of_uint8 (take (Z.to_nat count) (drop 8 (unread r)))),
              None).
Proof.
  unfold len. intros Hc Hlen. unfold readLabels.
  rewrite Discard_enough by lia. rewrite make_nonneg by done.
  cbn [mbind outcome_bind]. rewrite length_replicate.
  rewrite read_labels_bytes by (rewrite length_replicate; lia).
  cbn [unread advance]. rewrite length_drop.
  by rewrite decide_True by lia.
Qed.

Lemma readLabels_truncated r count :
  0 ≤ count → len (unread r) < 8 + count →
  readLabels r count = Returned (None, Some (final r)).
Proof.
  unfold len. intros Hc Hlen.
  destruct (decide (length (unread r) < 8)%nat) as [Hshort|Hlong].
  { by apply readLabels_short_header. }
  unfold readLabels.
  rewrite Discard_enough by lia. rewrite make_nonneg by done.
  cbn [mbind outcome_bind]. rewrite length_replicate.
  rewrite read_labels_bytes by (rewrite length_replicate; lia).
  cbn [unread advance final]. rewrite length_drop.
  by rewrite decide_False by lia.
Qed.

End ReadLabels.

(* ===================================================================== *)
(** ** The assembler *)
(* ===================================================================== *)

Section Assembler.

Variables (intensities : list (list byte)) (labels : list Z).

Lemma samples_loop_zip k : ∀ j samples,
  (j + k ≤ length intensities)%nat →
  (j + k ≤ length labels)%nat →
  length samples = (j + k)%nat →
  samples_loop (seq j k) intensities labels samples =
    Returned (take j samples ++
              zip_with sample_of (take k (drop j intensities))
                                 (take k (drop j labels))).
Proof.
  induction k as [|k IH]; intros j samples Hi Hl Hs.
  - simpl. rewrite take_ge by lia. by rewrite app_nil_r.
  - destruct (lookup_lt_is_Some_2 intensities j) as [image Himage]; [lia|].
    destruct (lookup_lt_is_Some_2 labels j) as [label Hlabel]; [lia|].
    destruct (lookup_lt_is_Some_2 samples j) as [old Hold]; [lia|].
    cbn [seq samples_loop].
    rewrite (index_in _ _ _ Himage). cbn [mbind outcome_bind].
    rewrite make_len. cbn [mbind outcome_bind].
    rewrite normalize_loop_full. cbn [mbind outcome_bind].
    rewrite (index_in _ _ _ Hold). cbn [mbind outcome_bind].
    rewrite index_set_in by lia. cbn [mbind outcome_bind].
    rewrite (index_in _ _ _ Hlabel). cbn [mbind outcome_bind].
    rewrite (index_in _ j (mkSample (map normalize image) (Label old)))
      by (apply list_lookup_insert_eq; lia).
    cbn [mbind outcome_bind Intensities].
    rewrite index_set_in by (rewrite length_insert; lia).
    cbn [mbind outcome_bind].
    rewrite list_insert_insert_eq.
    rewrite IH by (rewrite ?length_insert; lia).
    destruct (store_next samples j (mkSample (map normalize image) label) k)
      as (Ht & _ & _); [lia|].
    rewrite Ht, <- app_assoc.
    rewrite (drop_S _ _ _ Himage), (drop_S _ _ _ Hlabel).
    done.
Qed.

(** The data set of as many labels as images: sample [i] is image [i],
    normalized, with label [i]. *)
Lemma assemble_zip w h :
  length labels = length intensities →
  assemble intensities w h labels =
    Returned (mkDataSet (zip_with sample_of intensities labels) w h).
Proof.
  intros Hlen. unfold assemble.
  rewrite make_len. cbn [mbind outcome_bind].
  rewrite length_replicate.
  rewrite samples_loop_zip by (rewrite ?length_replicate; lia).
  cbn [mbind outcome_bind]. rewrite take_0, !drop_0.
  rewrite (take_ge intensities), (take_ge labels) by lia.
  done.
Qed.

End Assembler.

(* ===================================================================== *)
(** ** What the decoders can return *)
(* ===================================================================== *)

Section Outcomes.

(** A successful [readIntensities]: the header was there, the images are
    the blocks of [width * height] bytes behind it, and the product is the
    one of the integers. *)
Lemma readIntensities_success r results w h err :
  readIntensities r = Returned (Some results, w, h, err) →
  (16 ≤ length (unread r))%nat ∧
  err = None ∧
  w = header_width (unread r) ∧
  h = header_height (unread r) ∧
  header_count (unread r) * (w * h) ≤ len (unread r) - 16 ∧
  results = blocks (Z.to_nat (header_count (unread r))) (Z.to_nat (w * h))
              (drop 16 (unread r)).
Proof.
  intros Hrun.
  destruct (decide (length (unread r) < 16)%nat) as [Hshort|Hlong].
  { destruct (readIntensities_short_header r Hshort) as (e & He & _).
    congruence. }
  assert (16 ≤ length (unread r))%nat as Hheader by lia.
  destruct (header_fields_range r) as (Hc & Hw & Hh).
  destruct (decide (header_count (unread r) = 0)) as [Hzero|Hsome].
  { rewrite (readIntensities_no_image r Hheader Hzero) in Hrun.
    inversion Hrun; subst. rewrite Hzero. unfold len. split_and!; try done; lia. }
  destruct (Z_lt_le_dec (int_mul (header_width (unread r))
                                 (header_height (unread r))) 0) as [Hneg|Hpos].
  { rewrite (readIntensities_overflow r Hheader) in Hrun by lia. done. }
  destruct (int_mul_nonneg_exact _ _ Hw Hh Hpos) as (Hmul & Hfit).
  destruct (Z_le_gt_dec
              (header_count (unread r) *
               int_mul (header_width (unread r)) (header_height (unread r)))
              (len (unread r) - 16)) as [Henough|Hcut].
  - rewrite (readIntensities_complete r Hheader Hpos Henough) in Hrun.
    inversion Hrun; subst. rewrite <- Hmul. done.
  - rewrite (readIntensities_truncated r Hheader Hpos) in Hrun by lia. done.
Qed.

(** [readIntensities] ends in one of three ways. *)
Lemma readIntensities_outcomes r :
  (∃ err, readIntensities r = Returned (None, 0, 0, Some err)) ∨
  (∃ results w h, readIntensities r = Returned (Some results, w, h, None)) ∨
  readIntensities r = Panicked MakesliceLen.
Proof.
  destruct (decide (length (unread r) < 16)%nat) as [Hshort|Hlong].
  { destruct (readIntensities_short_header r Hshort) as (e & He & _). eauto. }
  assert (16 ≤ length (unread r))%nat as Hheader by lia.
  destruct (header_fields_range r) as (Hc & Hw & Hh).
  destruct (decide (header_count (unread r) = 0)) as [Hzero|Hsome].
  { rewrite (readIntensities_no_image r Hheader Hzero). eauto 6. }
  destruct (Z_lt_le_dec (int_mul (header_width (unread r))
                                 (header_height (unread r))) 0) as [Hneg|Hpos].
  { rewrite (readIntensities_overflow r Hheader) by lia. eauto. }
  destruct (Z_le_gt_dec
              (header_count (unread r) *
               int_mul (header_width (unread r)) (header_height (unread r)))
              (len (unread r) - 16)) as [Henough|Hcut].
  - rewrite (readIntensities_complete r Hheader Hpos Henough). eauto 6.
  - rewrite (readIntensities_truncated r Hheader Hpos) by lia. eauto.
Qed.

(** [readLabels] for the length of a slice: the labels, as many, or an
    error. *)
Lemma readLabels_outcomes {A} r (s : list A) :
  (∃ err, readLabels r (len s) = Returned (None, Some err)) ∨
  (∃ labels, readLabels r (len s) = Returned (Some labels, None) ∧
             length labels = length s).
Proof.
  assert (0 ≤ len s) as Hs by (unfold len; lia).
  destruct (Z_le_gt_dec (8 + len s) (len (unread r))) as [Henough|Hcut].
  - right. rewrite (readLabels_complete r _ Hs Henough).
    eexists; split; [done|].
    rewrite length_map, length_take, length_drop.
    unfold len in *. lia.
  - left. rewrite (readLabels_truncated r _ Hs) by lia. eauto.
Qed.

End Outcomes.

(* ===================================================================== *)
(** ** [loadDataSet] *)
(* ===================================================================== *)

Section Load.

Variables TrainData TestData TrainLabels TestLabels : list byte.
Variable gz : list byte → Reader + error.

Local Abbreviation open :=
  (fun name => (assetReader TrainData TestData TrainLabels TestLabels gz name).2).

Lemma run_bind_result {A B} (m : run A) (f : A → run B) :
  (run_bind m f).2 =
    match m.2 with
    | Returned a => (f a).2
    | Panicked p => Panicked p
    end.
Proof. destruct m as [out [a|p]]; simpl; [by destruct (f a)|done]. Qed.

(** Every run of [loadDataSet] is one of the cases of [load_result]. *)
Lemma loadDataSet_cases prefix :
  load_result open prefix
    (loadDataSet TrainData TestData TrainLabels TestLabels gz prefix).2.
Proof.
  unfold loadDataSet. rewrite run_bind_result.
  destruct (open (prefix +:+ "-images-idx3-ubyte.gz")) as [reader|p] eqn:Himages;
    [|by apply load_images_unopened].
  destruct (readIntensities_outcomes reader)
    as [(err & Hrun)|[(results & w & h & Hrun)|Hrun]]; rewrite Hrun.
  - by eapply load_images_failed.
  - rewrite run_bind_result. cbn [default from_option id].
    destruct (open (prefix +:+ "-labels-idx1-ubyte.gz")) as [reader'|p] eqn:Hlabels;
      [|by eapply load_labels_unopened].
    destruct (readLabels_outcomes reader' results)
      as [(err & Hread)|(labels & Hread & Hlen)]; rewrite Hread.
    + by eapply load_labels_failed.
    + cbn [snd default from_option id]. rewrite assemble_zip by done.
      by eapply load_complete.
  - by eapply load_images_panicked.
Qed.

(** The four files the entry points open. *)
Lemma assetReader_train_images :
  asset_opened gz "train-images-idx3-ubyte.gz" TrainData
    (open "train-images-idx3-ubyte.gz").
Proof.
  cbn. destruct (gz TrainData) eqn:Hgz; [by apply asset_decompressed|].
  by apply asset_corrupt.
Qed.

Lemma assetReader_train_labels :
  asset_opened gz "train-labels-idx1-ubyte.gz" TrainLabels
    (open "train-labels-idx1-ubyte.gz").
Proof.
  cbn. destruct (gz TrainLabels) eqn:Hgz; [by apply asset_decompressed|].
  by apply asset_corrupt.
Qed.

Lemma assetReader_t10k_images :
  asset_opened gz "t10k-images-idx3-ubyte.gz" TestData
    (open "t10k-images-idx3-ubyte.gz").
Proof.
  cbn. destruct (gz TestData) eqn:Hgz; [by apply asset_decompressed|].
  by apply asset_corrupt.
Qed.

Lemma assetReader_t10k_labels :
  asset_opened gz "t10k-labels-idx1-ubyte.gz" TestLabels
    (open "t10k-labels-idx1-ubyte.gz").
Proof.
  cbn. destruct (gz TestLabels) eqn:Hgz; [by apply asset_decompressed|].
  by apply asset_corrupt.
Qed.

End Load.

(* ===================================================================== *)
(** ** [LabelVectors] and [IntensityVectors] *)
(* ===================================================================== *)

Section Views.

Lemma label_vectors_loop_units samples : ∀ j res,
  Forall label_in_range samples →
  length res = (j + length samples)%nat →
  label_vectors_loop j samples res =
    Returned (take j res ++ map (fun sample => unit_vector (Label sample)) samples).
Proof.
  induction samples as [|sample samples IH]; intros j res Hrange Hlen;
    simpl in Hlen.
  - simpl. rewrite take_ge by lia. by rewrite app_nil_r.
  - apply Forall_cons in Hrange as [Hsample Hrange].
    unfold label_in_range in Hsample.
    cbn [label_vectors_loop]. rewrite make_nonneg by lia.
    cbn [mbind outcome_bind].
    rewrite index_set_in by lia. cbn [mbind outcome_bind].
    rewrite <- (Z2Nat.id (Label sample)) at 1 by lia.
    rewrite index_set_in by (rewrite length_replicate; lia).
    cbn [mbind outcome_bind].
    rewrite index_set_in by (rewrite length_insert; lia).
    cbn [mbind outcome_bind].
    rewrite list_insert_insert_eq.
    rewrite IH; [|done|rewrite ?length_insert; lia].
    destruct (store_next res j (unit_vector (Label sample)) (length samples))
      as (Ht & _ & _); [lia|].
    unfold unit_vector in *. change (Z.to_nat 10) with 10%nat.
    rewrite Ht, <- app_assoc. done.
Qed.

Lemma label_vectors_loop_panics samples : ∀ j res,
  Exists (fun sample => ¬ label_in_range sample) samples →
  length res = (j + length samples)%nat →
  ∃ sample, sample ∈ samples ∧ ¬ label_in_range sample ∧
    label_vectors_loop j samples res = Panicked (BoundsError (Label sample) 10).
Proof.
  induction samples as [|sample samples IH]; intros j res Hbad Hlen;
    simpl in Hlen.
  - by apply Exists_nil in Hbad.
  - destruct (decide (label_in_range sample)) as [Hin|Hout].
    + unfold label_in_range in Hin.
      apply Exists_cons in Hbad as [Hbad|Hbad]; [done|].
      destruct (IH (S j) (<[j := unit_vector (Label sample)]> res))
        as (bad & Hmem & Hrange & Hrun);
        [done|rewrite !length_insert; lia|].
      exists bad. split_and!; [by apply elem_of_cons; right|done|].
      cbn [label_vectors_loop]. rewrite make_nonneg by lia.
      cbn [mbind outcome_bind].
      rewrite index_set_in by lia. cbn [mbind outcome_bind].
      rewrite <- (Z2Nat.id (Label sample)) at 1 by lia.
      rewrite index_set_in by (rewrite length_replicate; lia).
      cbn [mbind outcome_bind].
      rewrite index_set_in by (rewrite length_insert; lia).
      cbn [mbind outcome_bind].
      rewrite list_insert_insert_eq. exact Hrun.
    + exists sample. split_and!; [by apply elem_of_cons; left|done|].
      cbn [label_vectors_loop]. rewrite make_nonneg by lia.
      cbn [mbind outcome_bind].
      rewrite index_set_in by lia. cbn [mbind outcome_bind].
      rewrite index_set_out; [done|].
      unfold label_in_range in Hout. unfold len. rewrite length_replicate. lia.
Qed.

Lemma unit_vector_one_hot label : 0 ≤ label ≤ 9 → one_hot label (unit_vector label).
Proof.
  intros Hl.
  assert (label = 0 ∨ label = 1 ∨ label = 2 ∨ label = 3 ∨ label = 4 ∨
          label = 5 ∨ label = 6 ∨ label = 7 ∨ label = 8 ∨ label = 9)
    as Hcases by lia.
  destruct_or!; subst label; (split; [reflexivity|]);
    intros k Hk; do 10 (destruct k as [|k]; [reflexivity|]); lia.
Qed.

Lemma unit_vector_count_ones label : 0 ≤ label ≤ 9 → count_ones (unit_vector label) = 1%nat.
Proof.
  intros Hl.
  assert (label = 0 ∨ label = 1 ∨ label = 2 ∨ label = 3 ∨ label = 4 ∨
          label = 5 ∨ label = 6 ∨ label = 7 ∨ label = 8 ∨ label = 9)
    as Hcases by lia.
  destruct_or!; subst label; vm_compute; reflexivity.
Qed.

Lemma intensity_vectors_loop_map samples : ∀ j res,
  length res = (j + length samples)%nat →
  intensity_vectors_loop j samples res =
    Returned (take j res ++ map Intensities samples).
Proof.
  induction samples as [|sample samples IH]; intros j res Hlen; simpl in Hlen.
  - simpl. rewrite take_ge by lia. by rewrite app_nil_r.
  - cbn [intensity_vectors_loop].
    rewrite index_set_in by lia. cbn [mbind outcome_bind].
    rewrite IH by (rewrite ?length_insert; lia).
    destruct (store_next res j (Intensities sample) (length samples))
      as (Ht & _ & _); [lia|].
    rewrite Ht, <- app_assoc. done.
Qed.

(** [IntensityVectors] returns each sample's vector, in order. *)
Lemma IntensityVectors_map d :
  IntensityVectors d = Returned (map Intensities (Samples d)).
Proof.
  unfold IntensityVectors. rewrite make_len. cbn [mbind outcome_bind].
  rewrite intensity_vectors_loop_map by (rewrite length_replicate; lia).
  done.
Qed.

End Views.

(* ===================================================================== *)
(** ** Normalized intensities *)
(* ===================================================================== *)

Section Floats.

Lemma normalize_range x :
  PrimFloat.leb 0%float (normalize x) = true ∧
  PrimFloat.leb (normalize x) 1%float = true.
Proof. destruct x; vm_compute; split; reflexivity. Qed.

Lemma normalize_nearest x :
  nearest_double (normalize x) (int_of_uint8 x) 255 = true.
Proof. destruct x; vm_compute; reflexivity. Qed.

End Floats.

(* ===================================================================== *)
(** ** The image decoder *)
(* ===================================================================== *)

(** C1. For every decompressed image byte stream, the image decoder skips
    the first 4 bytes, reads the three big-endian 32-bit unsigned integers
    count, width and height in that order (the words at offsets 4, 8 and
    12) and, when it succeeds, returns exactly count byte vectors, each of
    length width*height, in the order of the blocks in the stream (image
    [j] is the block at offset [16 + j*width*height]), together with width
    and height. It does succeed on every stream that holds the header and
    count blocks of width*height bytes, the product being one an [int] can
    hold when there is an image at all. *)
Theorem readIntensities_layout (s : list byte) :
  (∀ results w h,
     readIntensities (NewReader s) = Returned (Some results, w, h, None) →
     (16 ≤ length s)%nat ∧
     w = header_width s ∧
     h = header_height s ∧
     len results = header_count s ∧
     Forall (fun image => len image = w * h) results ∧
     (∀ j : nat, (j < length results)%nat →
        results !! j
        = Some (take (Z.to_nat (w * h)) (drop (16 + j * Z.to_nat (w * h)) s))) ∧
     concat results = take (Z.to_nat (header_count s * (w * h))) (drop 16 s)) ∧
  ((16 ≤ length s)%nat →
   header_count s = 0 ∨ header_width s * header_height s ≤ max_int →
   header_count s * (header_width s * header_height s) ≤ len s - 16 →
   ∃ results,
     readIntensities (NewReader s)
     = Returned (Some results, header_width s, header_height s, None)).
Proof.
  pose proof (BigEndian_Uint32_range (take 4 (drop 4 s))) as Hc.
  pose proof (BigEndian_Uint32_range (take 4 (drop 8 s))) as Hwr.
  pose proof (BigEndian_Uint32_range (take 4 (drop 12 s))) as Hhr.
  fold (header_count s) in Hc. fold (header_width s) in Hwr.
  fold (header_height s) in Hhr.
  split.
  - intros results w h Hrun.
    apply readIntensities_success in Hrun
      as (Hheader & _ & Hw & Hh & Hfit & Hresults).
    cbn [unread NewReader] in *.
    rewrite <- Hw in Hwr. rewrite <- Hh in Hhr.
    assert (0 ≤ w * h) as Hsize by nia.
    assert (Z.to_nat (header_count s) * Z.to_nat (w * h)
            ≤ length (drop 16 s))%nat as Hblocks.
    { rewrite <- Z2Nat.inj_mul by lia. rewrite length_drop.
      unfold len in Hfit. lia. }
    split_and!; try done.
    + rewrite Hresults. unfold len. rewrite length_blocks. lia.
    + rewrite Hresults. apply Forall_forall. intros image Himage.
      unfold len. rewrite (blocks_block_length _ _ _ _ Hblocks Himage). lia.
    + intros j Hj. rewrite Hresults in Hj |- *. rewrite length_blocks in Hj.
      rewrite blocks_lookup by done. by rewrite drop_drop.
    + rewrite Hresults, blocks_concat by done.
      by rewrite <- Z2Nat.inj_mul by lia.
  - intros Hheader [Hnone|Hint] Hfit.
    + eexists. by apply (readIntensities_no_image (NewReader s)).
    + pose proof (int_mul_exact _ _ Hwr Hhr Hint) as Hmul.
      eexists. apply (readIntensities_complete (NewReader s));
        cbn [unread NewReader]; rewrite ?Hmul; try done; nia.
Qed.

Lemma readIntensities_layout_two_images :
  readIntensities (NewReader two_images)
  = Returned (Some [bytes_of [0; 255; 128; 64]; bytes_of [255; 0; 0; 255]],
              2, 2, None) ∧
  len [bytes_of [0; 255; 128; 64]; bytes_of [255; 0; 0; 255]]
  = header_count two_images ∧
  ∃ results,
    readIntensities (NewReader two_images)
    = Returned (Some results, header_width two_images,
                header_height two_images, None).
Proof.
  split_and!.
  - reflexivity.
  - apply (proj1 (readIntensities_layout two_images)
             [bytes_of [0; 255; 128; 64]; bytes_of [255; 0; 0; 255]] 2 2).
    reflexivity.
  - apply (proj2 (readIntensities_layout two_images)); vm_compute;
      first [lia | right; congruence | congruence].
Defined.

(** C3, as the code has it. When the header of an image stream has width
    zero or height zero, decoding does not fail: no image byte is read and
    the decoder returns count empty byte vectors together with the width
    and height of the header. *)
Theorem readIntensities_zero_dimension (s : list byte) :
  (16 ≤ length s)%nat →
  header_width s = 0 ∨ header_height s = 0 →
  readIntensities (NewReader s)
  = Returned (Some (replicate (Z.to_nat (header_count s)) []),
              header_width s, header_height s, None).
Proof.
  intros Hheader Hzero.
  assert (int_mul (header_width s) (header_height s) = 0) as Hsize.
  { unfold int_mul. destruct Hzero as [-> | ->];
      rewrite ?Z.mul_0_l, ?Z.mul_0_r; reflexivity. }
  pose proof (BigEndian_Uint32_range (take 4 (drop 4 s))) as Hc.
  fold (header_count s) in Hc.
  rewrite readIntensities_complete; cbn [unread NewReader];
    rewrite ?Hsize; unfold len; try lia; try done.
  by rewrite blocks_zero.
Qed.

Lemma readIntensities_zero_dimension_example :
  (16 ≤ length zero_width_images)%nat ∧
  readIntensities (NewReader zero_width_images)
  = Returned (Some [[]; []], 0, 5, None).
Proof.
  split; [vm_compute; lia|].
  apply (readIntensities_zero_dimension zero_width_images);
    [vm_compute; lia|left; reflexivity].
Defined.

(** C3, as stated, fails: the stream [zero_width_images] has width zero in
    its header and is decoded without error. *)
Lemma zero_dimension_accepted : ¬ zero_dimension_rejected zero_width_images.
Proof.
  intros Hclaim.
  destruct Hclaim as [err Herr]; [vm_compute; lia|left; reflexivity|].
  vm_compute in Herr. discriminate Herr.
Qed.

(** Whenever width*height fits in an [int], an image stream in which some
    image block has fewer than width*height bytes available before the
    stream ends makes the decoder fail with the error "not enough data for
    image" and return nothing else: no block is padded and no shorter list
    of images is returned. *)
Lemma readIntensities_truncated_image (s : list byte) (j : Z) :
  (16 ≤ length s)%nat →
  header_width s * header_height s ≤ max_int →
  0 ≤ j < header_count s →
  available_for s (header_width s * header_height s) j
  < header_width s * header_height s →
  readIntensities (NewReader s)
  = Returned (None, 0, 0, Some (errors_New "not enough data for image")).
Proof.
  unfold available_for. intros Hheader Hint Hj Hcut.
  pose proof (BigEndian_Uint32_range (take 4 (drop 8 s))) as Hw.
  pose proof (BigEndian_Uint32_range (take 4 (drop 12 s))) as Hh.
  fold (header_width s) in Hw. fold (header_height s) in Hh.
  pose proof (int_mul_exact _ _ Hw Hh Hint) as Hmul.
  rewrite (readIntensities_truncated (NewReader s)); cbn [unread NewReader];
    rewrite ?Hmul; try done; nia.
Qed.

Lemma readIntensities_truncated_image_example :
  (16 ≤ length cut_images)%nat ∧
  readIntensities (NewReader cut_images)
  = Returned (None, 0, 0, Some (errors_New "not enough data for image")).
Proof.
  split; [vm_compute; lia|].
  apply (readIntensities_truncated_image cut_images 1); vm_compute;
    first [lia | done | split; congruence].
Qed.

(** C4 fails on the code for the stream [huge_images]: its header
    announces one image of [2^32 - 1] by [2^32 - 1] pixels and no byte of
    it follows, so the image has fewer than width*height bytes available;
    but width*height wraps around on [int] to [-8589934591], the test
    [n < width*height] does not see the missing bytes, and the decoder
    panics in [make] instead of returning the error for truncated image
    data. *)
Theorem readIntensities_huge_images :
  header_count huge_images = 1 ∧
  header_width huge_images = 4294967295 ∧
  header_height huge_images = 4294967295 ∧
  int_mul (header_width huge_images) (header_height huge_images) = -8589934591 ∧
  available_for huge_images
    (header_width huge_images * header_height huge_images) 0 = 0 ∧
  readIntensities (NewReader huge_images) = Panicked MakesliceLen ∧
  ¬ truncated_image_rejected huge_images.
Proof.
  split_and!; [vm_compute; reflexivity..|].
  intros Hclaim.
  assert (readIntensities (NewReader huge_images) = Panicked MakesliceLen)
    as Hrun by (vm_compute; reflexivity).
  rewrite Hclaim in Hrun; [discriminate Hrun|vm_compute; lia|].
  exists 0. vm_compute. split; [split; congruence|reflexivity].
Qed.

(* ===================================================================== *)
(** ** The label decoder *)
(* ===================================================================== *)



(* ===================================================================== *)
(** ** The ignored prefixes *)
(* ===================================================================== *)

(** C8. The decoded output does not depend on the ignored prefix: two
    image streams that differ only in their first 4 bytes, and two label
    streams that differ only in their first 8 bytes, are decoded to the
    same results; the prefix is discarded and never examined. *)
Theorem prefix_ignored (s1 s2 t1 t2 : list byte) (count : Z) :
  length s1 = length s2 → drop 4 s1 = drop 4 s2 →
  length t1 = length t2 → drop 8 t1 = drop 8 t2 →
  readIntensities (NewReader s1) = readIntensities (NewReader s2) ∧
  readLabels (NewReader t1) count = readLabels (NewReader t2) count.
Proof.
  intros Hs Hds Ht Hdt. split.
  - unfold readIntensities, Discard, NewReader, advance, drained, len.
    cbn [unread final]. rewrite Hs, Hds. done.
  - unfold readLabels, Discard, NewReader, advance, drained, len.
    cbn [unread final]. rewrite Ht, Hdt. done.
Qed.

Lemma prefix_ignored_two_images :
  readIntensities (NewReader two_images) = readIntensities (NewReader two_images') ∧
  readLabels (NewReader two_labels) 2 = readLabels (NewReader two_labels') 2.
Proof.
  apply (prefix_ignored two_images two_images' two_labels two_labels' 2);
    reflexivity.
Defined.

(* ===================================================================== *)
(** ** The views *)
(* ===================================================================== *)

(** C7. For every data set whose samples all have a label from 0 to 9,
    [LabelVectors] returns one vector per sample and, for every index [i],
    vector [i] has length 10 and exactly one [1.0], at the index of the
    label of sample [i], and [0.0] at every other index. *)
Theorem LabelVectors_one_hot (d : DataSet) :
  Forall label_in_range (Samples d) →
  ∃ vectors,
    LabelVectors d = Returned vectors ∧
    length vectors = length (Samples d) ∧
    ∀ (i : nat) sample, Samples d !! i = Some sample →
      ∃ v, vectors !! i = Some v ∧
           one_hot (Label sample) v ∧
           count_ones v = 1%nat.
Proof.
  intros Hrange. unfold LabelVectors.
  rewrite make_len. cbn [mbind outcome_bind].
  rewrite label_vectors_loop_units by (done || rewrite length_replicate; lia).
  rewrite take_0. cbn [app].
  eexists. split; [reflexivity|]. split; [by rewrite length_map|].
  intros i sample Hsample. exists (unit_vector (Label sample)).
  assert (label_in_range sample) as Hlabel.
  { eapply Forall_lookup_1; eauto. }
  split_and!.
  - change (map ?f ?l) with (f <$> l). by rewrite list_lookup_fmap, Hsample.
  - by apply unit_vector_one_hot.
  - by apply unit_vector_count_ones.
Qed.

Lemma LabelVectors_one_hot_example :
  ∃ vectors,
    LabelVectors (mkDataSet [mkSample [] 3; mkSample [] 7] 0 0) = Returned vectors ∧
    length vectors = 2%nat ∧
    ∀ (i : nat) sample, [mkSample [] 3; mkSample [] 7] !! i = Some sample →
      ∃ v, vectors !! i = Some v ∧
           one_hot (Label sample) v ∧
           count_ones v = 1%nat.
Proof.
  apply (LabelVectors_one_hot (mkDataSet [mkSample [] 3; mkSample [] 7] 0 0)).
  repeat constructor; vm_compute; congruence.
Defined.

(** C9. For every data set with a sample whose label is outside 0 to 9,
    [LabelVectors] fails: storing at the index of that label in the vector
    of length 10 is out of bounds and the bounds check of the runtime
    panics. Nothing guards, clamps or skips such a label. *)
Theorem LabelVectors_out_of_range (d : DataSet) :
  Exists (fun sample => ¬ label_in_range sample) (Samples d) →
  ∃ sample,
    sample ∈ Samples d ∧
    ¬ label_in_range sample ∧
    LabelVectors d = Panicked (BoundsError (Label sample) 10).
Proof.
  intros Hbad. unfold LabelVectors.
  rewrite make_len. cbn [mbind outcome_bind].
  apply label_vectors_loop_panics; [done|].
  by rewrite length_replicate.
Qed.

Lemma LabelVectors_out_of_range_example :
  ∃ sample,
    sample ∈ [mkSample [] 3; mkSample [] 10] ∧
    ¬ label_in_range sample ∧
    LabelVectors (mkDataSet [mkSample [] 3; mkSample [] 10] 0 0)
    = Panicked (BoundsError (Label sample) 10).
Proof.
  apply (LabelVectors_out_of_range (mkDataSet [mkSample [] 3; mkSample [] 10] 0 0)).
  apply Exists_cons_tl, Exists_cons_hd.
  unfold label_in_range. simpl. lia.
Defined.

(* ===================================================================== *)
(** ** The assembler and the entry points *)
(* ===================================================================== *)

(** C6. For every raw pixel byte, all 256 of them, the assembler stores
    the normalized intensity [float64(b) / 255.0] in the intensity vector
    of the sample, at the index of the pixel; this binary64 value lies in
    [0.0, 1.0] and is a double nearest to the rational b/255. *)
Theorem intensities_normalized :
  (∀ x : byte,
     normalize x = PrimFloat.div (float64_of_uint8 x) 255%float ∧
     PrimFloat.leb 0%float (normalize x) = true ∧
     PrimFloat.leb (normalize x) 1%float = true ∧
     nearest_double (normalize x) (int_of_uint8 x) 255 = true) ∧
  (∀ intensities labels w h,
     length labels = length intensities →
     ∃ ds,
       assemble intensities w h labels = Returned ds ∧
       ∀ (i k : nat) image x,
         intensities !! i = Some image → image !! k = Some x →
         ∃ sample,
           Samples ds !! i = Some sample ∧
           length (Intensities sample) = length image ∧
           Intensities sample !! k
           = Some (PrimFloat.div (float64_of_uint8 x) 255%float)).
Proof.
  split.
  - intros x. pose proof (normalize_range x) as [Hlow Hhigh].
    pose proof (normalize_nearest x). done.
  - intros intensities labels w h Hlen.
    rewrite assemble_zip by done. eexists. split; [reflexivity|].
    intros i k image x Himage Hx. cbn [Samples].
    destruct (lookup_lt_is_Some_2 labels i) as [label Hlabel].
    { rewrite Hlen. by eapply lookup_lt_Some. }
    exists (sample_of image label). split_and!.
    + apply lookup_zip_with_Some. eauto.
    + cbn [sample_of Intensities]. by rewrite length_map.
    + cbn [sample_of Intensities]. change (map ?f ?l) with (f <$> l).
      by rewrite list_lookup_fmap, Hx.
Qed.

Lemma intensities_normalized_example :
  ∃ ds,
    assemble [bytes_of [0; 255; 128; 64]] 2 2 [3] = Returned ds ∧
    ∀ (i k : nat) image x,
      [bytes_of [0; 255; 128; 64]] !! i = Some image → image !! k = Some x →
      ∃ sample,
        Samples ds !! i = Some sample ∧
        length (Intensities sample) = length image ∧
        Intensities sample !! k
        = Some (PrimFloat.div (float64_of_uint8 x) 255%float).
Proof.
  apply (proj2 intensities_normalized [bytes_of [0; 255; 128; 64]] [3] 2 2).
  reflexivity.
Defined.

(** C2. For every data set that [loadDataSet] returns, the number of
    decoded image blocks, the number of decoded labels and
    [len(DataSet.Samples)] are all equal to the count of the image header,
    and the intensity vector of every sample has length width*height. *)
Theorem loadDataSet_counts
    (TrainData TestData TrainLabels TestLabels : list byte)
    (gz : list byte → Reader + error) (prefix : string) out (ds : DataSet) :
  loadDataSet TrainData TestData TrainLabels TestLabels gz prefix
  = (out, Returned ds) →
  ∃ images_reader labels_reader intensities labels,
    (assetReader TrainData TestData TrainLabels TestLabels gz
       (prefix +:+ "-images-idx3-ubyte.gz")).2 = Returned images_reader ∧
    readIntensities images_reader
    = Returned (Some intensities, Width ds, Height ds, None) ∧
    (assetReader TrainData TestData TrainLabels TestLabels gz
       (prefix +:+ "-labels-idx1-ubyte.gz")).2 = Returned labels_reader ∧
    readLabels labels_reader (len intensities) = Returned (Some labels, None) ∧
    len intensities = header_count (unread images_reader) ∧
    len labels = header_count (unread images_reader) ∧
    len (Samples ds) = header_count (unread images_reader) ∧
    Forall (fun sample => len (Intensities sample) = Width ds * Height ds)
      (Samples ds).
Proof.
  intros Hload.
  pose proof (loadDataSet_cases TrainData TestData TrainLabels TestLabels gz prefix)
    as Hcases.
  rewrite Hload in Hcases. cbn [snd] in Hcases.
  inversion Hcases as [| | | | |reader intensities w h reader' labels
                                Himages Hrun Hlabels Hread Hlen Hds].
  exists reader, reader', intensities, labels. cbn [Samples Width Height].
  pose proof Hrun as Hshape.
  apply readIntensities_success in Hshape as (Hheader & _ & Hw & Hh & Hfit & Hblocks).
  destruct (header_fields_range reader) as (Hc & Hwr & Hhr).
  rewrite <- Hw in Hwr. rewrite <- Hh in Hhr.
  assert (0 ≤ w * h) as Hsize by nia.
  assert (len intensities = header_count (unread reader)) as Hcount.
  { rewrite Hblocks. unfold len. rewrite length_blocks. lia. }
  split_and!; try done.
  - unfold len in *. lia.
  - unfold len in *. rewrite length_zip_with. lia.
  - apply Forall_lookup_2. intros i sample Hsample.
    apply lookup_zip_with_Some in Hsample as (image & label & -> & Himage & _).
    cbn [sample_of Intensities]. unfold len. rewrite length_map.
    apply list_elem_of_lookup_2 in Himage. rewrite Hblocks in Himage.
    apply blocks_block_length in Himage; [lia|].
    rewrite <- Z2Nat.inj_mul by lia. rewrite length_drop.
    unfold len in Hfit. lia.
Qed.

Lemma loadDataSet_counts_two_images :
  ∃ images_reader labels_reader intensities labels,
    (assetReader two_images two_images two_labels two_labels stored_NewReader
       "train-images-idx3-ubyte.gz").2 = Returned images_reader ∧
    readIntensities images_reader = Returned (Some intensities, 2, 2, None) ∧
    (assetReader two_images two_images two_labels two_labels stored_NewReader
       "train-labels-idx1-ubyte.gz").2 = Returned labels_reader ∧
    readLabels labels_reader (len intensities) = Returned (Some labels, None) ∧
    len intensities = header_count (unread images_reader) ∧
    len labels = header_count (unread images_reader) ∧
    len (zip_with sample_of
           [bytes_of [0; 255; 128; 64]; bytes_of [255; 0; 0; 255]] [3; 7])
    = header_count (unread images_reader) ∧
    Forall (fun sample => len (Intensities sample) = 2 * 2)
      (zip_with sample_of
         [bytes_of [0; 255; 128; 64]; bytes_of [255; 0; 0; 255]] [3; 7]).
Proof.
  apply (loadDataSet_counts two_images two_images two_labels two_labels
           stored_NewReader "train" [24; 10]
           (mkDataSet
              (zip_with sample_of
                 [bytes_of [0; 255; 128; 64]; bytes_of [255; 0; 0; 255]] [3; 7])
              2 2)).
  vm_compute. reflexivity.
Defined.

(** C10. The public entry points [LoadTrainingDataSet] and
    [LoadTestingDataSet] either return the completely assembled data set
    or panic. A file that gzip cannot open panics with "could not
    decompress <file>: <error>", an error of the image decoder with "failed
    to read images: <error>", an error of the label decoder with "failed to
    read labels: <error>"; no error value and no partial data set is ever
    returned. *)
Theorem entry_points_return_or_panic
    (TrainData TestData TrainLabels TestLabels : list byte)
    (gz : list byte → Reader + error) :
  let open := fun name =>
    (assetReader TrainData TestData TrainLabels TestLabels gz name).2 in
  load_result open "train"
    (LoadTrainingDataSet TrainData TestData TrainLabels TestLabels gz).2 ∧
  load_result open "t10k"
    (LoadTestingDataSet TrainData TestData TrainLabels TestLabels gz).2 ∧
  asset_opened gz "train-images-idx3-ubyte.gz" TrainData
    (open "train-images-idx3-ubyte.gz") ∧
  asset_opened gz "train-labels-idx1-ubyte.gz" TrainLabels
    (open "train-labels-idx1-ubyte.gz") ∧
  asset_opened gz "t10k-images-idx3-ubyte.gz" TestData
    (open "t10k-images-idx3-ubyte.gz") ∧
  asset_opened gz "t10k-labels-idx1-ubyte.gz" TestLabels
    (open "t10k-labels-idx1-ubyte.gz").
Proof.
  intros open. subst open. split_and!.
  - apply loadDataSet_cases.
  - apply loadDataSet_cases.
  - apply assetReader_train_images.
  - apply assetReader_train_labels.
  - apply assetReader_t10k_images.
  - apply assetReader_t10k_labels.
Qed.

(* ===================================================================== *)
(** ** Writing and reading big-endian words *)
(* ===================================================================== *)

Section BigEndian.

Lemma int_of_uint8_uint8 z : int_of_uint8 (uint8 z) = z mod 256.
Proof.
  unfold int_of_uint8, uint8.
  pose proof (Z.mod_pos_bound z 256 eq_refl) as Hz.
  destruct (Byte.of_N (Z.to_N (z mod 256))) as [b|] eqn:Hb.
  - apply Byte.to_of_N in Hb. simpl. rewrite Hb. lia.
  - apply Byte.of_N_None_iff in Hb. lia.
Qed.

Lemma lor_shiftl_add a b k :
  0 ≤ k → 0 ≤ a < 2 ^ k → 0 ≤ b → Z.lor a (Z.shiftl b k) = a + b * 2 ^ k.
Proof.
  intros Hk Ha Hb.
  pose proof (Z.add_lor_land a (Z.shiftl b k)) as Hsum.
  assert (Z.land a (Z.shiftl b k) = 0) as Hland; cycle 1.
  { rewrite Hland in Hsum. rewrite Z.shiftl_mul_pow2 in Hsum |- * by done. lia. }
  apply Z.bits_inj'. intros n Hn.
  rewrite Z.land_spec, Z.bits_0.
  destruct (Z_lt_le_dec n k) as [Hlow|Hhigh].
  - rewrite Z.shiftl_spec_low by done. apply andb_false_r.
  - destruct (Z.eq_dec a 0) as [->|Hne]; [by rewrite Z.bits_0|].
    rewrite (Z.bits_above_log2 a n); [done|lia|].
    apply Z.log2_lt_pow2; [lia|].
    apply Z.lt_le_trans with (2 ^ k); [lia|].
    apply Z.pow_le_mono_r; lia.
Qed.

(** The value of a big-endian word. *)
Lemma BigEndian_Uint32_value b0 b1 b2 b3 rest :
  BigEndian_Uint32 (b0 :: b1 :: b2 :: b3 :: rest)
  = int_of_uint8 b0 * 2 ^ 24 + int_of_uint8 b1 * 2 ^ 16 +
    int_of_uint8 b2 * 2 ^ 8 + int_of_uint8 b3.
Proof.
  pose proof (int_of_uint8_range b0). pose proof (int_of_uint8_range b1).
  pose proof (int_of_uint8_range b2). pose proof (int_of_uint8_range b3).
  cbn [BigEndian_Uint32].
  rewrite (lor_shiftl_add (int_of_uint8 b3)) by lia.
  rewrite (lor_shiftl_add _ (int_of_uint8 b1)) by lia.
  rewrite (lor_shiftl_add _ (int_of_uint8 b0)) by lia.
  lia.
Qed.

Lemma BigEndian_Uint32_PutUint32 v rest :
  0 ≤ v < 2 ^ 32 → BigEndian_Uint32 (BigEndian_PutUint32 v ++ rest) = v.
Proof.
  intros Hv. unfold BigEndian_PutUint32. cbn [app].
  rewrite BigEndian_Uint32_value, !int_of_uint8_uint8.
  rewrite !Z.shiftr_div_pow2 by lia.
  change (2 ^ 24) with 16777216. change (2 ^ 16) with 65536.
  change (2 ^ 8) with 256.
  pose proof (Z.div_mod v 256). pose proof (Z.div_mod (v / 256) 256).
  pose proof (Z.div_mod (v / 65536) 256).
  replace (v / 256 / 256) with (v / 65536) in *
    by (rewrite Z.div_div by lia; done).
  replace (v / 65536 / 256) with (v / 16777216) in *
    by (rewrite Z.div_div by lia; done).
  assert (v / 16777216 < 256)
    by (apply Z.div_lt_upper_bound; lia).
  assert (0 ≤ v / 16777216) by (apply Z.div_pos; lia).
  rewrite (Z.mod_small (v / 16777216) 256) by lia.
  lia.
Qed.

Lemma length_PutUint32 v : length (BigEndian_PutUint32 v) = 4%nat.
Proof. reflexivity. Qed.

End BigEndian.

Section Blocks.

Lemma blocks_app k n l l' :
  (k * n ≤ length l)%nat → blocks k n (l ++ l') = blocks k n l.
Proof.
  revert l. induction k as [|k IH]; intros l Hlen; cbn [blocks Nat.mul] in *;
    [done|].
  rewrite take_app_le, drop_app_le by lia.
  rewrite IH by (rewrite length_drop; lia). done.
Qed.

Lemma blocks_of_concat n images rest :
  Forall (fun image => length image = n) images →
  blocks (length images) n (concat images ++ rest) = images.
Proof.
  induction images as [|image images IH]; intros Hsize; [done|].
  apply Forall_cons in Hsize as [Himage Hsize].
  cbn [length blocks concat]. rewrite <- app_assoc.
  rewrite take_app_length', drop_app_length' by done.
  by rewrite IH.
Qed.

Lemma length_concat_blocks n (images : list (list byte)) :
  Forall (fun image => length image = n) images →
  length (concat images) = (length images * n)%nat.
Proof.
  induction images as [|image images IH]; intros Hsize; [done|].
  apply Forall_cons in Hsize as [Himage Hsize].
  cbn [concat length Nat.mul]. rewrite length_app, IH by done. lia.
Qed.

End Blocks.

(* ===================================================================== *)
(** ** More on the image decoder *)
(* ===================================================================== *)

Section ImageStreams.

Lemma header_fields_app s extra :
  (16 ≤ length s)%nat →
  header_count (s ++ extra) = header_count s ∧
  header_width (s ++ extra) = header_width s ∧
  header_height (s ++ extra) = header_height s ∧
  drop 16 (s ++ extra) = drop 16 s ++ extra.
Proof.
  intros Hlen. unfold header_count, header_width, header_height.
  rewrite !drop_app_le by lia.
  rewrite !take_app_le by (rewrite length_drop; lia). done.
Qed.

Lemma BigEndian_Uint32_PutUint32_take v rest :
  0 ≤ v < 2 ^ 32 → BigEndian_Uint32 (take 4 (BigEndian_PutUint32 v ++ rest)) = v.
Proof.
  intros Hv. rewrite take_app_length' by done.
  rewrite <- (app_nil_r (BigEndian_PutUint32 v)).
  by apply BigEndian_Uint32_PutUint32.
Qed.

Lemma image_stream_header prefix width height images rest :
  length prefix = 4%nat →
  0 ≤ width < 2 ^ 32 → 0 ≤ height < 2 ^ 32 → len images < 2 ^ 32 →
  let s := image_stream prefix width height images rest in
  header_count s = len images ∧
  header_width s = width ∧
  header_height s = height ∧
  drop 16 s = concat images ++ rest ∧
  length s = (16 + length (concat images) + length rest)%nat.
Proof.
  intros Hprefix Hw Hh Hc s.
  assert (0 ≤ len images < 2 ^ 32) as Hc' by (unfold len in *; lia).
  assert (drop 4 s = BigEndian_PutUint32 (len images) ++
                     BigEndian_PutUint32 width ++ BigEndian_PutUint32 height ++
                     concat images ++ rest) as Hd4
    by (by apply drop_app_length').
  assert (drop 8 s = BigEndian_PutUint32 width ++ BigEndian_PutUint32 height ++
                     concat images ++ rest) as Hd8.
  { change (drop 8 s) with (drop (4 + 4) s).
    rewrite <- drop_drop, Hd4. by apply drop_app_length'. }
  assert (drop 12 s = BigEndian_PutUint32 height ++ concat images ++ rest) as Hd12.
  { change (drop 12 s) with (drop (8 + 4) s).
    rewrite <- drop_drop, Hd8. by apply drop_app_length'. }
  assert (drop 16 s = concat images ++ rest) as Hd16.
  { change (drop 16 s) with (drop (12 + 4) s).
    rewrite <- drop_drop, Hd12. by apply drop_app_length'. }
  unfold header_count, header_width, header_height.
  rewrite Hd4, Hd8, Hd12, Hd16.
  rewrite !BigEndian_Uint32_PutUint32_take by done.
  split_and!; try done.
  subst s. unfold image_stream. rewrite !length_app, !length_PutUint32. lia.
Qed.

Lemma image_stream_decoded prefix width height images rest fin :
  length prefix = 4%nat →
  0 ≤ width < 2 ^ 32 → 0 ≤ height < 2 ^ 32 → len images < 2 ^ 32 →
  Forall (fun image => len image = width * height) images →
  images = [] ∨ width * height ≤ max_int →
  readIntensities (mkReader (image_stream prefix width height images rest) fin)
  = Returned (Some images, width, height, None).
Proof.
  intros Hprefix Hw Hh Hc Hsize Hint.
  destruct (image_stream_header prefix width height images rest)
    as (Hcount & Hwidth & Hheight & Hdrop & Hlen); try done.
  set (s := image_stream prefix width height images rest) in *.
  assert (16 ≤ length (unread (mkReader s fin)))%nat as Hheader
    by (cbn [unread]; lia).
  destruct Hint as [->|Hint].
  { rewrite (readIntensities_no_image _ Hheader);
      cbn [unread]; by rewrite ?Hcount, ?Hwidth, ?Hheight. }
  pose proof (int_mul_exact _ _ Hw Hh Hint) as Hmul.
  assert (Forall (fun image : list byte => length image = Z.to_nat (width * height))
            images) as Hsize'.
  { eapply Forall_impl; [exact Hsize|]. intros image Himage.
    unfold len in Himage. simpl in Himage. lia. }
  rewrite (readIntensities_complete _ Hheader); cbn [unread];
    rewrite ?Hcount, ?Hwidth, ?Hheight, ?Hmul, ?Hdrop.
  - unfold len. rewrite Nat2Z.id. by rewrite blocks_of_concat.
  - nia.
  - unfold len. rewrite Hlen, (length_concat_blocks _ _ Hsize'). nia.
Qed.

End ImageStreams.

(** X1. Fewer than 16 bytes: the header cannot be read and the decoder
    returns [(nil, 0, 0, err)]. The error is [io.EOF] when the stream ends
    before the prefix is skipped or exactly in front of a field (0 to 4, 8
    or 12 bytes), and [io.ErrUnexpectedEOF] when it ends inside a field. *)
Theorem readIntensities_header_errors (s : list byte) :
  (length s < 16)%nat →
  readIntensities (NewReader s)
  = Returned (None, 0, 0,
              Some (if decide (length s ≤ 4 ∨ length s = 8 ∨ length s = 12)%nat
                    then EOF else ErrUnexpectedEOF)).
Proof.
  intros Hlen.
  do 16 (destruct s as [|? s]; [reflexivity|]).
  simpl in Hlen. lia.
Qed.

Lemma readIntensities_header_errors_examples :
  readIntensities (NewReader (take 8 two_images))
  = Returned (None, 0, 0, Some EOF) ∧
  readIntensities (NewReader (take 10 two_images))
  = Returned (None, 0, 0, Some ErrUnexpectedEOF).
Proof.
  split.
  - apply (readIntensities_header_errors (take 8 two_images)). vm_compute. lia.
  - apply (readIntensities_header_errors (take 10 two_images)). vm_compute. lia.
Defined.

(** X2. A header that announces no image: the decoder reads nothing behind
    the header and returns the empty list with the width and height of the
    header, whatever these are (their product may overflow [int]),
    whatever follows the header and however the reader ends. *)
Theorem readIntensities_no_images (r : Reader) :
  (16 ≤ length (unread r))%nat →
  header_count (unread r) = 0 →
  readIntensities r
  = Returned (Some [], header_width (unread r), header_height (unread r), None).
Proof. intros Hheader Hcount. by apply readIntensities_no_image. Qed.

Lemma readIntensities_no_images_example :
  readIntensities
    (broken_reader (bytes_of [0;0;8;3; 0;0;0;0; 255;255;255;255; 255;255;255;255; 7]))
  = Returned (Some [], 4294967295, 4294967295, None).
Proof.
  apply (readIntensities_no_images
           (broken_reader
              (bytes_of [0;0;8;3; 0;0;0;0; 255;255;255;255; 255;255;255;255; 7])));
    [vm_compute; lia|reflexivity].
Defined.

(** X3. A header that announces at least one image and dimensions whose
    product does not fit in an [int]: the decoder panics in [make]
    (makeslice: len out of range), whatever bytes follow the header. *)
Theorem readIntensities_overflow_panics (r : Reader) :
  (16 ≤ length (unread r))%nat →
  0 < header_count (unread r) →
  max_int < header_width (unread r) * header_height (unread r) →
  readIntensities r = Panicked MakesliceLen.
Proof.
  intros Hheader Hcount Hover.
  destruct (header_fields_range r) as (_ & Hw & Hh).
  apply readIntensities_overflow; [done|done|].
  by apply int_mul_overflow.
Qed.

Lemma readIntensities_overflow_panics_example :
  readIntensities
    (NewReader (bytes_of [0;0;8;3; 0;0;0;2; 192;0;0;0; 192;0;0;0; 1;2;3]))
  = Panicked MakesliceLen.
Proof.
  apply (readIntensities_overflow_panics
           (NewReader (bytes_of [0;0;8;3; 0;0;0;2; 192;0;0;0; 192;0;0;0; 1;2;3])));
    vm_compute; first [lia | reflexivity].
Defined.

(** X4. [readIntensities] ends in one of three ways, for every reader: it
    returns [(nil, 0, 0, err)] with an error; or it returns images and no
    error, with a width and a height below [2^32], fewer than [2^32]
    images, each of width*height bytes; or it panics in [make]. It never
    returns images together with an error, and no index is ever out of
    range. *)
Theorem readIntensities_ends (r : Reader) :
  (∃ err, readIntensities r = Returned (None, 0, 0, Some err)) ∨
  (∃ results w h,
     readIntensities r = Returned (Some results, w, h, None) ∧
     0 ≤ w < 2 ^ 32 ∧ 0 ≤ h < 2 ^ 32 ∧ len results < 2 ^ 32 ∧
     Forall (fun image => len image = w * h) results) ∨
  readIntensities r = Panicked MakesliceLen.
Proof.
  destruct (readIntensities_outcomes r)
    as [Herr|[(results & w & h & Hrun)|Hpanic]]; [by left| |by right; right].
  right; left. exists results, w, h. split; [done|].
  apply readIntensities_success in Hrun
    as (Hheader & _ & Hw & Hh & Hfit & Hresults).
  destruct (header_fields_range r) as (Hc & Hwr & Hhr).
  rewrite <- Hw in Hwr. rewrite <- Hh in Hhr.
  assert (0 ≤ w * h) as Hsize by nia.
  split_and!; try lia.
  - rewrite Hresults. unfold len. rewrite length_blocks. lia.
  - rewrite Hresults. apply Forall_forall. intros image Himage.
    apply blocks_block_length in Himage; [unfold len; lia|].
    rewrite <- Z2Nat.inj_mul by lia. rewrite length_drop.
    unfold len in Hfit. lia.
Qed.

(** X5. A reader that breaks (its error is not [io.EOF]) before it has
    delivered the header and every image: the decoder returns the error of
    the reader itself, not "not enough data for image", and no image. *)
Theorem readIntensities_reader_error (r : Reader) :
  final r ≠ EOF →
  (length (unread r) < 16)%nat ∨
  (header_width (unread r) * header_height (unread r) ≤ max_int ∧
   len (unread r) - 16
   < header_count (unread r) * (header_width (unread r) * header_height (unread r))) →
  readIntensities r = Returned (None, 0, 0, Some (final r)).
Proof.
  intros Hbroken [Hshort|[Hint Hcut]].
  - destruct (readIntensities_short_header r Hshort) as (err & Hrun & [->|[Heof _]]);
      done.
  - destruct (decide (length (unread r) < 16)%nat) as [Hshort|Hlong].
    { destruct (readIntensities_short_header r Hshort)
        as (err & Hrun & [->|[Heof _]]); done. }
    destruct (header_fields_range r) as (Hc & Hw & Hh).
    pose proof (int_mul_exact _ _ Hw Hh Hint) as Hmul.
    rewrite readIntensities_truncated; rewrite ?Hmul; try lia.
    unfold truncated_image_error. by destruct (final r).
Qed.

Lemma readIntensities_reader_error_example :
  readIntensities (broken_reader cut_images)
  = Returned (None, 0, 0, Some (ErrorString "gzip: invalid checksum")).
Proof.
  apply (readIntensities_reader_error (broken_reader cut_images));
    [discriminate|].
  right. vm_compute. split; [congruence|reflexivity].
Defined.

(** X6. The decoder reads the header and the announced images and nothing
    more: bytes behind the last image do not change a successful result. *)
Theorem readIntensities_trailing_ignored (s extra : list byte) results w h :
  readIntensities (NewReader s) = Returned (Some results, w, h, None) →
  readIntensities (NewReader (s ++ extra)) = Returned (Some results, w, h, None).
Proof.
  intros Hrun. pose proof Hrun as Hshape.
  apply readIntensities_success in Hshape
    as (Hheader & _ & Hw & Hh & Hfit & Hresults).
  cbn [unread NewReader] in *.
  destruct (header_fields_app s extra Hheader) as (Hc' & Hw' & Hh' & Hdrop).
  assert (16 ≤ length (unread (NewReader (s ++ extra))))%nat as Hheader'
    by (cbn [unread NewReader]; rewrite length_app; lia).
  destruct (header_fields_range (NewReader s)) as (Hc & Hwr & Hhr).
  cbn [unread NewReader] in *.
  destruct (decide (header_count s = 0)) as [Hzero|Hsome].
  { rewrite (readIntensities_no_image (NewReader (s ++ extra)) Hheader')
      by (cbn [unread NewReader]; congruence).
    cbn [unread NewReader]. rewrite Hresults, Hzero, Hw, Hh, Hw', Hh'. done. }
  destruct (Z_lt_le_dec (int_mul (header_width s) (header_height s)) 0)
    as [Hneg|Hpos].
  { rewrite (readIntensities_overflow (NewReader s)) in Hrun
      by (cbn [unread NewReader]; lia). done. }
  destruct (int_mul_nonneg_exact _ _ Hwr Hhr Hpos) as (Hmul & Hint).
  rewrite (readIntensities_complete (NewReader (s ++ extra)) Hheader');
    cbn [unread NewReader]; rewrite ?Hc', ?Hw', ?Hh', ?Hmul, ?Hdrop.
  - rewrite blocks_app; [by rewrite Hresults, Hw, Hh|].
    rewrite <- Z2Nat.inj_mul by nia. rewrite length_drop.
    unfold len in Hfit. subst w h. lia.
  - nia.
  - unfold len in *. rewrite length_app. subst w h. lia.
Qed.

Lemma readIntensities_trailing_ignored_example :
  readIntensities (NewReader (two_images ++ bytes_of [1; 2; 3]))
  = Returned (Some [bytes_of [0; 255; 128; 64]; bytes_of [255; 0; 0; 255]],
              2, 2, None).
Proof.
  apply (readIntensities_trailing_ignored two_images (bytes_of [1; 2; 3])).
  reflexivity.
Defined.

(** X7. Writing and reading back: a stream made of any 4 bytes, the number
    of images, a width and a height as big-endian words, then images of
    width*height bytes each and anything behind them, is decoded to
    exactly these images, this width and this height. *)
Theorem readIntensities_image_stream prefix width height images rest :
  length prefix = 4%nat →
  0 ≤ width < 2 ^ 32 → 0 ≤ height < 2 ^ 32 → len images < 2 ^ 32 →
  Forall (fun image => len image = width * height) images →
  images = [] ∨ width * height ≤ max_int →
  readIntensities (NewReader (image_stream prefix width height images rest))
  = Returned (Some images, width, height, None).
Proof. intros. by apply image_stream_decoded. Qed.

Lemma readIntensities_image_stream_example :
  readIntensities
    (NewReader (image_stream (bytes_of [0; 0; 8; 3]) 2 2
                  [bytes_of [0; 255; 128; 64]; bytes_of [255; 0; 0; 255]] []))
  = Returned (Some [bytes_of [0; 255; 128; 64]; bytes_of [255; 0; 0; 255]],
              2, 2, None).
Proof.
  apply (readIntensities_image_stream (bytes_of [0; 0; 8; 3]) 2 2
           [bytes_of [0; 255; 128; 64]; bytes_of [255; 0; 0; 255]] []);
    try (vm_compute; first [reflexivity | lia | split; congruence]).
  - repeat constructor.
  - right. vm_compute. congruence.
Defined.

(* ===================================================================== *)
(** ** More on the label decoder *)
(* ===================================================================== *)

(** X8. A negative count: with fewer than 8 bytes the decoder still
    returns the error of the reader, because the prefix is skipped first;
    with 8 bytes or more it panics in [make] (makeslice: len out of
    range). *)
Theorem readLabels_negative_count (r : Reader) (count : Z) :
  count < 0 →
  ((length (unread r) < 8)%nat →
   readLabels r count = Returned (None, Some (final r))) ∧
  ((8 ≤ length (unread r))%nat →
   readLabels r count = Panicked MakesliceLen).
Proof.
  intros Hcount. split; intros Hlen.
  - by apply readLabels_short_header.
  - by apply readLabels_negative.
Qed.

Lemma readLabels_negative_count_example :
  readLabels (NewReader (take 7 two_labels)) (-1) = Returned (None, Some EOF) ∧
  readLabels (NewReader two_labels) (-1) = Panicked MakesliceLen.
Proof.
  split.
  - apply (readLabels_negative_count (NewReader (take 7 two_labels)) (-1));
      [lia|vm_compute; lia].
  - apply (readLabels_negative_count (NewReader two_labels) (-1));
      [lia|vm_compute; lia].
Defined.

(** X9. The label decoder reads the 8 bytes of the prefix and count bytes
    and nothing more: what follows them in the stream, and the way the
    reader ends after them, do not change the labels. *)
Theorem readLabels_trailing_ignored (t extra : list byte) (fin : error) (count : Z) :
  0 ≤ count → 8 + count ≤ len t →
  readLabels (mkReader (t ++ extra) fin) count = readLabels (NewReader t) count ∧
  readLabels (NewReader t) count
  = Returned (Some (map int_of_uint8 (take (Z.to_nat count) (drop 8 t))), None).
Proof.
  unfold len. intros Hcount Hlen.
  rewrite (readLabels_complete (NewReader t)) by (unfold len; done).
  rewrite (readLabels_complete (mkReader (t ++ extra) fin));
    [|done|cbn [unread]; unfold len; rewrite length_app; lia].
  cbn [unread NewReader]. split; [|done].
  rewrite drop_app_le by lia.
  rewrite take_app_le by (rewrite length_drop; lia). done.
Qed.

Lemma readLabels_trailing_ignored_example :
  readLabels (broken_reader (two_labels ++ bytes_of [1; 2; 3])) 2
  = readLabels (NewReader two_labels) 2 ∧
  readLabels (NewReader two_labels) 2 = Returned (Some [3; 7], None).
Proof.
  apply (readLabels_trailing_ignored two_labels (bytes_of [1; 2; 3])
           (ErrorString "gzip: invalid checksum") 2);
    [lia|vm_compute; congruence].
Defined.



(* ===================================================================== *)
(** ** More on the views and the intensities *)
(* ===================================================================== *)

(** X11. [IntensityVectors] never panics and returns the intensity vector
    of every sample, in the order of the samples. *)
Theorem IntensityVectors_in_order (d : DataSet) :
  IntensityVectors d = Returned (map Intensities (Samples d)).
Proof. apply IntensityVectors_map. Qed.

(** X12. The views of an assembled data set: for as many labels as images,
    [IntensityVectors] of the data set that [loadDataSet] assembles
    returns the images, normalized byte by byte, in the order of the
    images. *)
Theorem IntensityVectors_assemble (intensities : list (list byte)) (w h : Z)
    (labels : list Z) :
  length labels = length intensities →
  ∃ ds,
    assemble intensities w h labels = Returned ds ∧
    IntensityVectors ds = Returned (map (map normalize) intensities).
Proof.
  intros Hlen. rewrite assemble_zip by done. eexists. split; [reflexivity|].
  rewrite IntensityVectors_map. cbn [Samples]. f_equal.
  revert labels Hlen.
  induction intensities as [|image intensities IH]; intros [|label labels] Hlen;
    simpl in Hlen; try done; try lia.
  cbn [zip_with map sample_of Intensities]. f_equal. apply IH. lia.
Qed.

Lemma IntensityVectors_assemble_example :
  ∃ ds,
    assemble [bytes_of [0; 255]; bytes_of [255; 0]] 2 1 [3; 7] = Returned ds ∧
    IntensityVectors ds
    = Returned (map (map normalize) [bytes_of [0; 255]; bytes_of [255; 0]]).
Proof.
  apply (IntensityVectors_assemble [bytes_of [0; 255]; bytes_of [255; 0]] 2 1 [3; 7]).
  reflexivity.
Defined.

Section Normalize.

Lemma all_bytes_complete x : In x all_bytes.
Proof.
  rewrite <- (uint8_int_of_uint8 x).
  pose proof (int_of_uint8_range x) as Hx.
  rewrite <- (Z2Nat.id (int_of_uint8 x)) by lia.
  unfold all_bytes.
  apply (in_map (fun n => uint8 (Z.of_nat n))).
  apply in_seq. lia.
Qed.

Lemma normalize_increasing_all :
  forallb (fun x => forallb (normalize_increasing x) all_bytes) all_bytes = true.
Proof. vm_compute. reflexivity. Qed.

End Normalize.

(** X13. Normalization keeps the order of the pixel values: a larger byte
    has a strictly larger intensity, so different bytes never have the
    same intensity; byte 0 becomes exactly [0.0] and byte 255 exactly
    [1.0]. *)
Theorem normalize_strictly_increasing :
  normalize x00 = 0%float ∧
  normalize xff = 1%float ∧
  ∀ x y : byte,
    int_of_uint8 x < int_of_uint8 y →
    PrimFloat.ltb (normalize x) (normalize y) = true.
Proof.
  split_and!; [reflexivity..|].
  intros x y Hxy.
  pose proof normalize_increasing_all as Hall.
  rewrite forallb_forall in Hall.
  specialize (Hall x (all_bytes_complete x)).
  rewrite forallb_forall in Hall.
  specialize (Hall y (all_bytes_complete y)).
  unfold normalize_increasing in Hall.
  by rewrite (proj2 (Z.ltb_lt _ _) Hxy) in Hall.
Qed.

Lemma normalize_strictly_increasing_example :
  PrimFloat.ltb (normalize (uint8 127)) (normalize (uint8 128)) = true.
Proof.
  apply (proj2 (proj2 normalize_strictly_increasing) (uint8 127) (uint8 128)).
  vm_compute. reflexivity.
Defined.

(* ===================================================================== *)
(** ** More on [loadDataSet] *)
(* ===================================================================== *)

Section LoadMore.

Variables TrainData TestData TrainLabels TestLabels : list byte.
Variable gz : list byte → Reader + error.

Local Abbreviation asset :=
  (assetReader TrainData TestData TrainLabels TestLabels gz).
Local Abbreviation load :=
  (loadDataSet TrainData TestData TrainLabels TestLabels gz).


Lemma loadDataSet_output prefix :
  (load prefix).1 =
    (asset (prefix +:+ "-images-idx3-ubyte.gz")).1 ++
    match (asset (prefix +:+ "-images-idx3-ubyte.gz")).2 with
    | Returned reader =>
        match readIntensities reader with
        | Returned (_, _, _, None) => (asset (prefix +:+ "-labels-idx1-ubyte.gz")).1
        | _ => []
        end
    | Panicked _ => []
    end.
Proof.
  unfold loadDataSet.
  destruct (asset (prefix +:+ "-images-idx3-ubyte.gz")) as [out [reader|p]];
    cbn [run_bind fst snd]; [|by rewrite app_nil_r].
  destruct (readIntensities reader) as [[[[results w] h] [err|]]|p];
    cbn [fst]; try done.
  destruct (asset (prefix +:+ "-labels-idx1-ubyte.gz")) as [out' [reader'|p]];
    cbn [run_bind fst snd]; [|done].
  destruct (readLabels reader' (len (default [] results)))
    as [[labels [err|]]|p]; cbn [fst]; by rewrite app_nil_r.
Qed.

Lemma images_decoded_match data :
  match gz data with
  | inl reader =>
      match readIntensities reader with
      | Returned (_, _, _, None) => images_decoded gz data
      | _ => ¬ images_decoded gz data
      end
  | inr _ => ¬ images_decoded gz data
  end.
Proof.
  unfold images_decoded.
  destruct (gz data) as [reader|err] eqn:Hgz;
    [|intros (r & results & w & h & Hr & _); done].
  destruct (readIntensities_outcomes reader)
    as [(err & Hrun)|[(results & w & h & Hrun)|Hrun]]; rewrite Hrun.
  - intros (r & results & w & h & Hr & Hok). congruence.
  - eauto 8.
  - intros (r & results & w & h & Hr & Hok). congruence.
Qed.

Lemma append_length s1 s2 :
  String.length (s1 +:+ s2) = (String.length s1 + String.length s2)%nat.
Proof. induction s1 as [|a s1 IH]; simpl; [done|by rewrite IH]. Qed.

Lemma assetReader_unknown prefix :
  prefix ≠ "train" → prefix ≠ "t10k" →
  asset (prefix +:+ "-images-idx3-ubyte.gz")
  = ([], Panicked (PanicString
                     ("file not found: " +:+ prefix +:+ "-images-idx3-ubyte.gz"))).
Proof.
  intros Htrain Htest. unfold assetReader.
  repeat match goal with
  | |- context [String.eqb ?name ?file] =>
      destruct (String.eqb_spec name file) as [Heq|_];
      [exfalso; pose proof (f_equal String.length Heq) as Hlen;
       rewrite append_length in Hlen;
       destruct prefix as [|a [|b [|c [|d [|e [|f prefix]]]]]];
       simpl in Hlen; try lia; cbv [String.append] in Heq; congruence|]
  end.
  done.
Qed.

Lemma assetReader_output_train :
  (asset ("train" +:+ "-images-idx3-ubyte.gz")).1 = [len TrainData] ∧
  (asset ("train" +:+ "-labels-idx1-ubyte.gz")).1 = [len TrainLabels] ∧
  (asset ("train" +:+ "-images-idx3-ubyte.gz")).2
  = match gz TrainData with
    | inl reader => Returned reader
    | inr err =>
        Panicked (PanicString
          ("could not decompress train-images-idx3-ubyte.gz: " +:+ Error err))
    end.
Proof. split_and!; reflexivity. Qed.

Lemma assetReader_output_t10k :
  (asset ("t10k" +:+ "-images-idx3-ubyte.gz")).1 = [len TestData] ∧
  (asset ("t10k" +:+ "-labels-idx1-ubyte.gz")).1 = [len TestLabels] ∧
  (asset ("t10k" +:+ "-images-idx3-ubyte.gz")).2
  = match gz TestData with
    | inl reader => Returned reader
    | inr err =>
        Panicked (PanicString
          ("could not decompress t10k-images-idx3-ubyte.gz: " +:+ Error err))
    end.
Proof. split_and!; reflexivity. Qed.

End LoadMore.



(** X15. What the entry points print: [LoadTrainingDataSet] prints the
    length of the compressed image file before it opens it, and the length
    of the compressed label file only when the images were decoded: two
    lines after a decoded image file, one line otherwise (also when the
    image file is no gzip file at all). [LoadTestingDataSet] does the same
    with its files. *)
Theorem entry_points_output
    (TrainData TestData TrainLabels TestLabels : list byte)
    (gz : list byte → Reader + error) :
  (images_decoded gz TrainData →
   (LoadTrainingDataSet TrainData TestData TrainLabels TestLabels gz).1
   = [len TrainData; len TrainLabels]) ∧
  (¬ images_decoded gz TrainData →
   (LoadTrainingDataSet TrainData TestData TrainLabels TestLabels gz).1
   = [len TrainData]) ∧
  (images_decoded gz TestData →
   (LoadTestingDataSet TrainData TestData TrainLabels TestLabels gz).1
   = [len TestData; len TestLabels]) ∧
  (¬ images_decoded gz TestData →
   (LoadTestingDataSet TrainData TestData TrainLabels TestLabels gz).1
   = [len TestData]).
Proof.
  unfold LoadTrainingDataSet, LoadTestingDataSet.
  rewrite !loadDataSet_output.
  destruct (assetReader_output_train TrainData TestData TrainLabels TestLabels gz)
    as (-> & -> & ->).
  destruct (assetReader_output_t10k TrainData TestData TrainLabels TestLabels gz)
    as (-> & -> & ->).
  pose proof (images_decoded_match gz TrainData) as Htrain.
  pose proof (images_decoded_match gz TestData) as Htest.
  destruct (gz TrainData) as [r|e]; destruct (gz TestData) as [r'|e'];
    try destruct (readIntensities r) as [[[[? ?] ?] [?|]]|?];
    try destruct (readIntensities r') as [[[[? ?] ?] [?|]]|?];
    split_and!; intros; done.
Qed.

Lemma entry_points_output_example :
  (LoadTrainingDataSet two_images two_images two_labels two_labels
     stored_NewReader).1 = [24; 10] ∧
  (LoadTrainingDataSet cut_images two_images two_labels two_labels
     stored_NewReader).1 = [23].
Proof.
  split.
  - apply (proj1 (entry_points_output two_images two_images two_labels two_labels
                    stored_NewReader)).
    eexists _, _, _, _. split; reflexivity.
  - apply (proj1 (proj2 (entry_points_output cut_images two_images two_labels
                           two_labels stored_NewReader))).
    intros (reader & results & w & h & Hgz & Hrun).
    inversion Hgz; subst. vm_compute in Hrun. discriminate Hrun.
Defined.

(** X16. Only the prefixes "train" and "t10k" name embedded files: for
    every other prefix [loadDataSet] panics with "file not found: " and the
    name of the image file, before anything is printed or read. *)
Theorem loadDataSet_unknown_prefix
    (TrainData TestData TrainLabels TestLabels : list byte)
    (gz : list byte → Reader + error) (prefix : string) :
  prefix ≠ "train" → prefix ≠ "t10k" →
  loadDataSet TrainData TestData TrainLabels TestLabels gz prefix
  = ([], Panicked (PanicString
                     ("file not found: " +:+ prefix +:+ "-images-idx3-ubyte.gz"))).
Proof.
  intros Htrain Htest. unfold loadDataSet.
  by rewrite assetReader_unknown.
Qed.

Lemma loadDataSet_unknown_prefix_example :
  loadDataSet two_images two_images two_labels two_labels stored_NewReader "test"
  = ([], Panicked (PanicString "file not found: test-images-idx3-ubyte.gz")).
Proof.
  apply (loadDataSet_unknown_prefix two_images two_images two_labels two_labels
           stored_NewReader "test"); discriminate.
Defined.

(* ===================================================================== *)
(** ** The byte order of the header *)
(* ===================================================================== *)

(** X17. The byte order of the header: when a stream is decoded, the
    number of images, the width and the height returned are the values of
    bytes 4 to 7, 8 to 11 and 12 to 15 read most significant byte first. *)
Theorem readIntensities_big_endian
    (p0 p1 p2 p3 c0 c1 c2 c3 w0 w1 w2 w3 h0 h1 h2 h3 : byte) (rest : list byte)
    results w h :
  readIntensities
    (NewReader (p0 :: p1 :: p2 :: p3 :: c0 :: c1 :: c2 :: c3 ::
                w0 :: w1 :: w2 :: w3 :: h0 :: h1 :: h2 :: h3 :: rest))
  = Returned (Some results, w, h, None) →
  len results
  = int_of_uint8 c0 * 2 ^ 24 + int_of_uint8 c1 * 2 ^ 16 +
    int_of_uint8 c2 * 2 ^ 8 + int_of_uint8 c3 ∧
  w = int_of_uint8 w0 * 2 ^ 24 + int_of_uint8 w1 * 2 ^ 16 +
      int_of_uint8 w2 * 2 ^ 8 + int_of_uint8 w3 ∧
  h = int_of_uint8 h0 * 2 ^ 24 + int_of_uint8 h1 * 2 ^ 16 +
      int_of_uint8 h2 * 2 ^ 8 + int_of_uint8 h3.
Proof.
  intros Hrun.
  apply readIntensities_success in Hrun as (_ & _ & Hw & Hh & _ & Hresults).
  unfold header_count, header_width, header_height in *.
  cbn [unread NewReader drop take] in *.
  rewrite BigEndian_Uint32_value in Hw, Hh, Hresults.
  split_and!; [|done|done].
  rewrite Hresults. unfold len. rewrite length_blocks.
  pose proof (int_of_uint8_range c0). pose proof (int_of_uint8_range c1).
  pose proof (int_of_uint8_range c2). pose proof (int_of_uint8_range c3).
  lia.
Qed.

Lemma readIntensities_big_endian_example :
  len [bytes_of [7]; bytes_of [8]; bytes_of [9]]
  = int_of_uint8 (uint8 0) * 2 ^ 24 + int_of_uint8 (uint8 0) * 2 ^ 16 +
    int_of_uint8 (uint8 0) * 2 ^ 8 + int_of_uint8 (uint8 3) ∧
  1 = int_of_uint8 (uint8 0) * 2 ^ 24 + int_of_uint8 (uint8 0) * 2 ^ 16 +
      int_of_uint8 (uint8 0) * 2 ^ 8 + int_of_uint8 (uint8 1) ∧
  1 = int_of_uint8 (uint8 0) * 2 ^ 24 + int_of_uint8 (uint8 0) * 2 ^ 16 +
      int_of_uint8 (uint8 0) * 2 ^ 8 + int_of_uint8 (uint8 1).
Proof.
  apply (readIntensities_big_endian
           (uint8 0) (uint8 0) (uint8 8) (uint8 3)
           (uint8 0) (uint8 0) (uint8 0) (uint8 3)
           (uint8 0) (uint8 0) (uint8 0) (uint8 1)
           (uint8 0) (uint8 0) (uint8 0) (uint8 1)
           (bytes_of [7; 8; 9])
           [bytes_of [7]; bytes_of [8]; bytes_of [9]] 1 1).
  reflexivity.
Defined.
